(** * Inbox triage assistant: clustering, archiving and mailbox listing

    A shallow embedding of [inbox_triage/email_clusterer.py],
    [inbox_triage/gmail_client.py], the handlers of [inbox_triage/web_app.py]
    and the table rows of [inbox_triage/cli.py], with the properties of their
    specification and further properties of the code. *)

From Stdlib Require Import String Ascii.
From Stdlib Require Import List ZArith NArith Bool Lia Permutation.
From Stdlib Require DecimalString.
Import ListNotations.

Set Implicit Arguments.
Local Open Scope Z_scope.

(** ** Python values *)

(** A Python [str] is a sequence of Unicode code points. *)
Module PyStr.

Definition char := N.
Definition str := list char.

(** An ASCII string literal of the source, as code points. *)
Definition lit (s : string) : str := map N_of_ascii (list_ascii_of_string s).

Fixpoint str_eqb (a b : str) : bool :=
  match a, b with
  | [], [] => true
  | x :: a', y :: b' => N.eqb x y && str_eqb a' b'
  | _, _ => false
  end.

(** [str(n)] and [f"{n}"] for a non-negative [int]: decimal digits. *)
Definition str_of_nat (n : nat) : str :=
  lit (DecimalString.NilEmpty.string_of_uint (Nat.to_uint n)).

(** [s.startswith(p)]. *)
Fixpoint startswith (p s : str) : bool :=
  match p, s with
  | [], _ => true
  | x :: p', y :: s' => N.eqb x y && startswith p' s'
  | _ :: _, [] => false
  end.

(** [str.replace(old, new)]: non-overlapping occurrences of [old], leftmost
    first.  [skip] counts the characters of a matched occurrence that are
    still to be consumed. *)
Fixpoint replace_from (old new : str) (skip : nat) (s : str) : str :=
  match s with
  | [] => []
  | c :: t =>
      match skip with
      | S k => replace_from old new k t
      | O =>
          if startswith old s
          then new ++ replace_from old new (Nat.pred (length old)) t
          else c :: replace_from old new O t
      end
  end.

Definition replace (old new s : str) : str :=
  match old with
  | [] => new ++ flat_map (fun c => c :: new) s
  | _ :: _ => replace_from old new O s
  end.

(** The characters matched by [\s] in a [str] pattern of [re]
    (CPython's [Py_UNICODE_ISSPACE]). *)
Definition is_space (c : char) : bool :=
  (((9 <=? c) && (c <=? 13)) || ((28 <=? c) && (c <=? 32))
   || (c =? 133) || (c =? 160) || (c =? 5760)
   || ((8192 <=? c) && (c <=? 8202))
   || (c =? 8232) || (c =? 8233) || (c =? 8239) || (c =? 8287)
   || (c =? 12288))%N.

Definition AT : char := 64%N.
Definition GT : char := 62%N.

(** [x in s] for a one-character [x]. *)
Definition contains_char (x : char) (s : str) : bool := existsb (N.eqb x) s.

End PyStr.
Import PyStr.

Arguments lit : simpl never.
Arguments str_of_nat : simpl never.

(** A Python [bool(x)] of a list: non-empty. *)
Definition truthy {A} (l : list A) : bool :=
  match l with [] => false | _ :: _ => true end.

(** [len(l)], a Python [int]. *)
Definition len {A} (l : list A) : Z := Z.of_nat (length l).

(** ** gmail_client.EmailMessage and email_clusterer.EmailCluster *)

(** [datetime] values are only carried around; a point in time is an integer
    here. *)
Definition datetime := Z.

Record EmailMessage := mkEmailMessage {
  uid : str;
  subject : str;
  sender : str;
  date : datetime;
  body_preview : str;
  has_attachments : bool
}.

Record EmailCluster := mkEmailCluster {
  cluster_id : Z;
  name : str;
  description : str;
  emails : list EmailMessage;
  keywords : list str
}.

(** Dataclass equality [==]: field by field. *)
Definition msg_eqb (a b : EmailMessage) : bool :=
  str_eqb (uid a) (uid b) && str_eqb (subject a) (subject b)
  && str_eqb (sender a) (sender b) && Z.eqb (date a) (date b)
  && str_eqb (body_preview a) (body_preview b)
  && Bool.eqb (has_attachments a) (has_attachments b).

(** [m in l]. *)
Definition mem (m : EmailMessage) (l : list EmailMessage) : bool :=
  existsb (msg_eqb m) l.

(** ** A Python [dict] with [str] keys: insertion-ordered *)
Module Dict.
Section WithValue.
Variable V : Type.

Definition t := list (str * V).

(** [k in d] *)
Fixpoint contains (k : str) (d : t) : bool :=
  match d with
  | [] => false
  | (k', _) :: d' => str_eqb k' k || contains k d'
  end.

(** [d[k]]; [None] stands for [KeyError]. *)
Fixpoint getitem (k : str) (d : t) : option V :=
  match d with
  | [] => None
  | (k', v) :: d' => if str_eqb k' k then Some v else getitem k d'
  end.

(** [d[k] = v]: an existing key keeps its position, a new key goes last. *)
Fixpoint setitem (k : str) (v : V) (d : t) : t :=
  match d with
  | [] => [(k, v)]
  | (k', v') :: d' =>
      if str_eqb k' k then (k', v) :: d' else (k', v') :: setitem k v d'
  end.

(** [d.items()] *)
Definition items (d : t) : list (str * V) := d.

End WithValue.
End Dict.

(** ** email_clusterer.EmailClusterer *)

Record EmailClusterer := mkEmailClusterer { min_cluster_size : Z }.

(** [__init__(self, min_cluster_size = 3)] *)
Definition default_clusterer : EmailClusterer := mkEmailClusterer 3.

(** The longest prefix of [s] matched by [[^>\s]*]. *)
Fixpoint domain_run (s : str) : str :=
  match s with
  | [] => []
  | c :: t => if N.eqb c GT || is_space c then [] else c :: domain_run t
  end.

(** [re.search(r'@([^>\s]+)', sender)]: group 1 of the leftmost match. *)
Fixpoint re_search_domain (s : str) : option str :=
  match s with
  | [] => None
  | c :: t =>
      if N.eqb c AT && truthy (domain_run t)
      then Some (domain_run t)
      else re_search_domain t
  end.

Definition _extract_domain (sender : str) : str :=
  match re_search_domain sender with
  | Some g => g
  | None => []
  end.

Definition _create_single_cluster (emails : list EmailMessage) : EmailCluster :=
  {| cluster_id := 0;
     name := lit "All Messages (" ++ str_of_nat (length emails) ++ lit ")";
     description := lit "All " ++ str_of_nat (length emails) ++ lit " recent emails";
     emails := emails;
     keywords := [] |}.

Definition _create_miscellaneous_cluster (emails : list EmailMessage) : EmailCluster :=
  {| cluster_id := 999;
     name := lit "Miscellaneous (" ++ str_of_nat (length emails) ++ lit ")";
     description := lit "Various emails that don't fit other categories";
     emails := emails;
     keywords := [] |}.

Section Clustering.

(** Python's built-in [str.title], whose Unicode case tables are not part of
    the program. *)
Variable title : str -> str.

Variable self : EmailClusterer.

(** The body of the first loop of [_rule_based_clustering]. *)
Definition group_step (domain_groups : Dict.t (list EmailMessage)) (email : EmailMessage)
  : Dict.t (list EmailMessage) :=
  let domain := _extract_domain (sender email) in
  let domain_groups :=
    if negb (Dict.contains domain domain_groups)
    then Dict.setitem domain [] domain_groups
    else domain_groups in
  match Dict.getitem domain domain_groups with
  | Some l => Dict.setitem domain (l ++ [email]) domain_groups
  | None => domain_groups
  end.

Definition group_by_domain (emails : list EmailMessage) : Dict.t (list EmailMessage) :=
  fold_left group_step emails [].

Definition clean (domain : str) : str :=
  title (replace (lit "www.") [] (replace (lit ".com") [] domain)).

(** The body of the second loop: the state is [(clusters, cluster_id)]. *)
Definition cluster_step (st : list EmailCluster * Z) (item : str * list EmailMessage)
  : list EmailCluster * Z :=
  let '(clusters, next_id) := st in
  let '(domain, domain_emails) := item in
  if min_cluster_size self <=? len domain_emails
  then
    let clean_domain := clean domain in
    (clusters ++
       [ {| cluster_id := next_id;
            name := clean_domain ++ lit " (" ++ str_of_nat (length domain_emails) ++ lit ")";
            description := lit "Emails from " ++ domain;
            emails := domain_emails;
            keywords := [] |} ],
     next_id + 1)
  else (clusters, next_id).

Definition _rule_based_clustering (emails : list EmailMessage) : list EmailCluster :=
  let domain_groups := group_by_domain emails in
  let clusters := fst (fold_left cluster_step (Dict.items domain_groups) ([], 0)) in
  if truthy clusters then clusters else [_create_single_cluster emails].

Definition cluster_emails (emails : list EmailMessage) (num_clusters : Z) : list EmailCluster :=
  if len emails <? min_cluster_size self
  then [_create_single_cluster emails]
  else _rule_based_clustering emails.

End Clustering.

(** [str.title] on ASCII text: a letter that follows a letter is lowered, any
    other letter is raised.  It agrees with Python on strings of code points
    below 128. *)
Definition is_upper (c : char) : bool := ((65 <=? c) && (c <=? 90))%N.
Definition is_lower (c : char) : bool := ((97 <=? c) && (c <=? 122))%N.

Fixpoint ascii_title_from (previous_is_cased : bool) (s : str) : str :=
  match s with
  | [] => []
  | c :: t =>
      (if previous_is_cased
       then (if is_upper c then c + 32 else c)%N
       else (if is_lower c then c - 32 else c)%N)
      :: ascii_title_from (is_upper c || is_lower c) t
  end.

Definition ascii_title (s : str) : str := ascii_title_from false s.

(** ** Exceptions and calls that may raise *)

(** A raised exception: its class and [str(e)]. *)
Inductive exn := Exception (cls : string) (message : str).

Definition str_of_exn (e : exn) : str :=
  match e with Exception _ m => m end.

Inductive outcome (A : Type) :=
| Return (a : A)
| Raise (e : exn).

Arguments Return {A} a.
Arguments Raise {A} e.

(** A Python [bytes] value: a sequence of byte values. *)
Definition bytes := list N.

(** ** gmail_client.GmailClient *)

Section Gateway.

(** The state of an [imaplib.IMAP4_SSL] connection together with the mailbox
    behind it, and the two commands [archive_emails] sends.  A command
    returns or raises, and changes the state either way. *)
Variable Conn : Type.

Definition IO (A : Type) : Type := Conn -> outcome A * Conn.

Definition ret {A} (a : A) : IO A := fun c => (Return a, c).

Definition bind {A B} (m : IO A) (k : A -> IO B) : IO B :=
  fun c =>
    match m c with
    | (Return a, c') => k a c'
    | (Raise e, c') => (Raise e, c')
    end.

Local Notation "m ;; k" := (bind m (fun _ => k)) (at level 61, right associativity).

Variable imap_store : str -> str -> str -> IO unit.
Variable imap_expunge : IO unit.

Record GmailClient := mkGmailClient {
  email_address : str;
  app_password : str;
  imap_server : str;
  imap_port : Z;
  connection : option Conn
}.

(** The client after a command has changed the state of its connection. *)
Definition with_connection (self : GmailClient) (c : Conn) : GmailClient :=
  mkGmailClient (email_address self) (app_password self) (imap_server self)
                (imap_port self) (Some c).

(** The [for uid in email_uids] loop of [archive_emails]. *)
Fixpoint store_flags (email_uids : list str) : IO unit :=
  match email_uids with
  | [] => ret tt
  | uid :: rest =>
      imap_store uid (lit "+X-GM-LABELS") (lit "\Important") ;;
      imap_store uid (lit "+FLAGS") (lit "\Deleted") ;;
      store_flags rest
  end.

Definition archive_emails (self : GmailClient) (email_uids : list str)
  : outcome unit * GmailClient :=
  match connection self with
  | None => (Raise (Exception "RuntimeError" (lit "Not connected to Gmail")), self)
  | Some c =>
      let '(r, c') := (store_flags email_uids ;; imap_expunge) c in
      let self' := with_connection self c' in
      match r with
      | Return _ => (Return tt, self')
      | Raise e =>
          (Raise (Exception "RuntimeError" (lit "Failed to archive emails: " ++ str_of_exn e)),
           self')
      end
  end.

(** ** web_app: the [/archive_cluster] handler *)

(** The module globals [current_clusters] and [current_gmail_client]. *)
Record AppState := mkAppState {
  current_clusters : list EmailCluster;
  current_gmail_client : option GmailClient
}.

(** [jsonify({"success": True, "message": m})] and [jsonify({"error": m})]. *)
Inductive Body :=
| Success (message : str)
| Error (error : str).

Record Response := mkResponse { status : Z; body : Body }.

(** The [for cluster in current_clusters] search with its [break]. *)
Definition find_cluster (cluster_id0 : Z) (clusters : list EmailCluster) : option EmailCluster :=
  find (fun cluster => cluster_id cluster =? cluster_id0) clusters.

(** [request_cluster_id] is the result of
    [int(request.get_json().get("cluster_id"))], which may raise. *)
Definition archive_cluster (request_cluster_id : outcome Z) (st : AppState)
  : Response * AppState :=
  match request_cluster_id with
  | Raise e => (mkResponse 500 (Error (str_of_exn e)), st)
  | Return cluster_id0 =>
      match current_gmail_client st with
      | None => (mkResponse 400 (Error (lit "Not connected to Gmail")), st)
      | Some client =>
          match find_cluster cluster_id0 (current_clusters st) with
          | None => (mkResponse 404 (Error (lit "Cluster not found")), st)
          | Some target_cluster =>
              let email_uids := map uid (emails target_cluster) in
              match archive_emails client email_uids with
              | (Raise e, client') =>
                  (mkResponse 500 (Error (str_of_exn e)),
                   mkAppState (current_clusters st) (Some client'))
              | (Return _, client') =>
                  (mkResponse 200
                     (Success (lit "Archived " ++ str_of_nat (length email_uids)
                               ++ lit " emails from '" ++ name target_cluster ++ lit "'")),
                   mkAppState
                     (filter (fun c => negb (cluster_id c =? cluster_id0)) (current_clusters st))
                     (Some client'))
              end
          end
      end
  end.

End Gateway.

(** ** gmail_client.fetch_recent_emails: which messages are fetched *)

(** The slice [l[start:]]. *)
Definition slice_from {A} (start : Z) (l : list A) : list A :=
  let start := if start <? 0 then Z.max 0 (start + len l) else Z.min start (len l) in
  skipn (Z.to_nat start) l.

(** [message_list[-count:] if len(message_list) > count else message_list] *)
Definition recent_messages (message_list : list bytes) (count : Z) : list bytes :=
  if count <? len message_list
  then slice_from (- count) message_list
  else message_list.

(** The message numbers in the order the fetch loop visits them:
    [reversed(recent_messages)]. *)
Definition listRecent (message_list : list bytes) (count : Z) : list bytes :=
  rev (recent_messages message_list count).

(** ** gmail_client._decode_header *)

(** An element of the list [email.header.decode_header] returns: [bytes] with
    an optional charset, or a [str]. *)
Inductive header_part :=
| PartBytes (b : bytes)
| PartStr (s : str).

Section Normalizer.

(** The two library calls of [_decode_header]: [email.header.decode_header]
    and [bytes.decode(encoding, errors="ignore")]. *)
Variable decode_header : str -> outcome (list (header_part * option str)).
Variable bytes_decode_ignore : bytes -> str -> outcome str.

(** [encoding or "utf-8"] *)
Definition encoding_or_utf8 (encoding : option str) : str :=
  match encoding with
  | Some e => if truthy e then e else lit "utf-8"
  | None => lit "utf-8"
  end.

(** The [for part, encoding in decoded_parts] loop. *)
Fixpoint decode_parts (decoded_parts : list (header_part * option str)) (decoded_string : str)
  : outcome str :=
  match decoded_parts with
  | [] => Return decoded_string
  | (PartBytes b, encoding) :: rest =>
      match bytes_decode_ignore b (encoding_or_utf8 encoding) with
      | Return s => decode_parts rest (decoded_string ++ s)
      | Raise e => Raise e
      end
  | (PartStr s, _) :: rest => decode_parts rest (decoded_string ++ s)
  end.

Definition _decode_header (header : str) : outcome str :=
  if negb (truthy header) then Return []
  else
    match decode_header header with
    | Raise e => Raise e
    | Return decoded_parts => decode_parts decoded_parts []
    end.

End Normalizer.

(** ** Reading the grouping as a function of the input *)

Definition domain_of (e : EmailMessage) : str := _extract_domain (sender e).

Definition in_domain (d : str) (e : EmailMessage) : bool := str_eqb (domain_of e) d.

(** The members of the group of domain [d], in input order. *)
Definition group_of (emails : list EmailMessage) (d : str) : list EmailMessage :=
  filter (in_domain d) emails.

(** The multiplicity of a sender domain in the input. *)
Definition domain_count (emails : list EmailMessage) (d : str) : Z :=
  len (group_of emails d).

Fixpoint add_key (d : str) (ks : list str) : list str :=
  match ks with
  | [] => [d]
  | k :: ks' => if str_eqb k d then k :: ks' else k :: add_key d ks'
  end.

(** The distinct sender domains, in order of first occurrence. *)
Definition domain_keys (emails : list EmailMessage) : list str :=
  fold_left (fun ks e => add_key (domain_of e) ks) emails [].

(** The merged effect of one iteration of the grouping loop. *)
Fixpoint group_add (d : str) (e : EmailMessage) (g : Dict.t (list EmailMessage))
  : Dict.t (list EmailMessage) :=
  match g with
  | [] => [(d, [e])]
  | (k, v) :: g' =>
      if str_eqb k d then (k, v ++ [e]) :: g' else (k, v) :: group_add d e g'
  end.

Section Reading.

Variable title : str -> str.
Variable self : EmailClusterer.

(** The threshold test of the second loop, on a dictionary item. *)
Definition big (item : str * list EmailMessage) : bool :=
  min_cluster_size self <=? len (snd item).

(** A sender domain whose multiplicity in [msgs] is at least
    [min_cluster_size]. *)
Definition reaches (msgs : list EmailMessage) (d : str) : bool :=
  min_cluster_size self <=? domain_count msgs d.

Definition some_domain_reaches (msgs : list EmailMessage) : bool :=
  existsb (fun e => reaches msgs (domain_of e)) msgs.

(** The domains whose group is retained, in dictionary order. *)
Definition kept_keys (msgs : list EmailMessage) : list str :=
  filter (reaches msgs) (domain_keys msgs).

Definition domain_cluster (next_id : Z) (item : str * list EmailMessage) : EmailCluster :=
  {| cluster_id := next_id;
     name := clean title (fst item) ++ lit " (" ++ str_of_nat (length (snd item)) ++ lit ")";
     description := lit "Emails from " ++ fst item;
     emails := snd item;
     keywords := [] |}.

Fixpoint number_clusters (next_id : Z) (items : list (str * list EmailMessage))
  : list EmailCluster :=
  match items with
  | [] => []
  | item :: rest => domain_cluster next_id item :: number_clusters (next_id + 1) rest
  end.

(** The output clusters that have [m] among their members. *)
Definition clusters_containing (m : EmailMessage) (out : list EmailCluster)
  : list EmailCluster :=
  filter (fun c => mem m (emails c)) out.

End Reading.

(** ** Sample data *)

Definition sample_message (u s : string) : EmailMessage :=
  mkEmailMessage (lit u) (lit "hello") (lit s) 0 [] false.

Definition inbox_x3_y1 : list EmailMessage :=
  [ sample_message "1" "a@x.com"; sample_message "2" "Bob <b@x.com>";
    sample_message "3" "c@x.com"; sample_message "4" "d@y.com" ].

Definition inbox_no_at : list EmailMessage :=
  [ sample_message "1" "MAILER-DAEMON"; sample_message "2" "postmaster";
    sample_message "3" "root"; sample_message "4" "d@y.com" ].

(** The active set after a login on [inbox_x3_y1]. *)
Definition clusters_x3_y1 : list EmailCluster :=
  cluster_emails ascii_title default_clusterer inbox_x3_y1 5.

(** A connection that records the commands it receives and never raises. *)
Inductive ImapCommand :=
| STORE (message_set command flag_list : str)
| EXPUNGE.

Definition MockConn := list ImapCommand.

Definition mock_store (message_set command flag_list : str) : IO MockConn unit :=
  fun c => (Return tt, c ++ [STORE message_set command flag_list]).

Definition mock_expunge : IO MockConn unit :=
  fun c => (Return tt, c ++ [EXPUNGE]).

Definition mock_client : GmailClient MockConn :=
  mkGmailClient (lit "user@gmail.com") (lit "app-password") (lit "imap.gmail.com") 993
                (Some []).

Definition mock_archive_cluster :=
  archive_cluster mock_store mock_expunge.

(** A sample of the library's behaviour on headers: the encoded word
    [=?x-unknown?q?abc?=] splits into the bytes [abc] with charset
    [x-unknown]; text without encoded words is returned as it is. *)
Definition sample_header : str := lit "=?x-unknown?q?abc?=".

Definition sample_decode_header (header : str)
  : outcome (list (header_part * option str)) :=
  if str_eqb header sample_header
  then Return [(PartBytes (lit "abc"), Some (lit "x-unknown"))]
  else Return [(PartStr header, None)].

(** [bytes.decode] looks the codec up first; [errors="ignore"] only governs
    bytes the codec cannot decode. *)
Definition sample_bytes_decode (b : bytes) (encoding : str) : outcome str :=
  if str_eqb encoding (lit "utf-8") || str_eqb encoding (lit "ascii")
  then Return (filter (fun c => (c <? 128)%N) b)
  else Raise (Exception "LookupError" (lit "unknown encoding: " ++ encoding)).

(** ** email_clusterer: further functions *)

(** [str(n)] and [f"{n}"] for an [int]. *)
Definition str_of_int (z : Z) : str :=
  if z <? 0 then lit "-" ++ str_of_nat (Z.to_nat (- z)) else str_of_nat (Z.to_nat z).

(** [needle in hay] for two [str]. *)
Fixpoint contains_sub (needle hay : str) : bool :=
  startswith needle hay
  || match hay with
     | [] => false
     | _ :: t => contains_sub needle t
     end.

Section ClusterInfo.

(** Python's built-in [str.title] and [str.lower]. *)
Variable title : str -> str.
Variable lower : str -> str.

(** [any(service in domain for service in services)] *)
Definition any_service (services : list str) (domain : str) : bool :=
  existsb (fun service => contains_sub service domain) services.

Definition _generate_cluster_info (keywords : list str) (domain : str) (count : Z)
  : str * str :=
  if negb (truthy keywords) && negb (truthy domain)
  then (lit "Mixed Messages (" ++ str_of_int count ++ lit ")",
        lit "Cluster of " ++ str_of_int count ++ lit " diverse emails")
  else if truthy domain
          && any_service [lit "newsletter"; lit "marketing"; lit "promo"; lit "deals"] domain
  then (lit "Marketing & Newsletters (" ++ str_of_int count ++ lit ")",
        lit "Promotional emails from " ++ domain)
  else if truthy domain
          && any_service [lit "github"; lit "gitlab"; lit "bitbucket"] domain
  then (lit "Code Repository Updates (" ++ str_of_int count ++ lit ")",
        lit "Notifications from " ++ domain)
  else if truthy domain
          && any_service [lit "slack"; lit "teams"; lit "discord"] domain
  then (lit "Team Communication (" ++ str_of_int count ++ lit ")",
        lit "Messages from " ++ domain)
  else
    match keywords with
    | keyword0 :: _ =>
        let primary_keyword := title keyword0 in
        (primary_keyword ++ lit " Related (" ++ str_of_int count ++ lit ")",
         lit "Emails about " ++ lower primary_keyword)
    | [] =>
        if truthy domain
        then
          let clean_domain := title (replace (lit "www.") [] (replace (lit ".com") [] domain)) in
          (clean_domain ++ lit " Messages (" ++ str_of_int count ++ lit ")",
           lit "Emails from " ++ domain)
        else (lit "Uncategorized (" ++ str_of_int count ++ lit ")",
              lit "Cluster of " ++ str_of_int count ++ lit " emails")
    end.

End ClusterInfo.

(** The distinct elements of a list of domains, each at its first
    occurrence. *)
Fixpoint first_occurrences (l : list str) : list str :=
  match l with
  | [] => []
  | d :: r => d :: filter (fun k => negb (str_eqb d k)) (first_occurrences r)
  end.

(** A domain character of the pattern: neither [>] nor white space. *)
Definition domain_char (c : char) : bool := negb (N.eqb c GT || is_space c).

(** ** gmail_client: body preview and attachments *)

(** [str.lstrip()], [str.rstrip()] and [str.strip()]: white space is what
    [str.isspace] accepts, the characters of [is_space]. *)
Fixpoint lstrip (s : str) : str :=
  match s with
  | [] => []
  | c :: t => if is_space c then lstrip t else s
  end.

Definition rstrip (s : str) : str := rev (lstrip (rev s)).

Definition strip (s : str) : str := rstrip (lstrip s).

(** The calls into Python's [email] package and the codecs, on an abstract
    type of parsed messages.  [get_payload_decoded] is
    [get_payload(decode=True)], with [None] when the call gives no [bytes]
    (it returned [None] or raised), so that the [.decode] after it fails. *)
Record EmailLib (Message : Type) := mkEmailLib {
  message_from_bytes : bytes -> Message;
  msg_get : Message -> str -> str -> str;
  is_multipart : Message -> bool;
  walk : Message -> list Message;
  get_content_type : Message -> str;
  get_content_disposition : Message -> option str;
  get_payload_decoded : Message -> option bytes;
  get_payload_str : Message -> str;
  utf8_decode_ignore : bytes -> str;
  lib_decode_header : str -> outcome (list (header_part * option str));
  lib_bytes_decode_ignore : bytes -> str -> outcome str;
  parsedate_to_datetime : str -> outcome datetime;
  bytes_decode : bytes -> outcome str
}.

Section MessageParts.

Variable Message : Type.
Variable lib : EmailLib Message.

(** The [for part in email_message.walk()] loop of [_extract_body_preview]:
    the first [text/plain] part whose payload decodes ends the loop. *)
Fixpoint first_plain_text (parts : list Message) : str :=
  match parts with
  | [] => []
  | part :: rest =>
      if str_eqb (get_content_type lib part) (lit "text/plain")
      then
        match get_payload_decoded lib part with
        | Some b => utf8_decode_ignore lib b
        | None => first_plain_text rest
        end
      else first_plain_text rest
  end.

Definition _extract_body_preview (email_message : Message) : str :=
  let body :=
    if is_multipart lib email_message
    then first_plain_text (walk lib email_message)
    else
      match get_payload_decoded lib email_message with
      | Some b => utf8_decode_ignore lib b
      | None => get_payload_str lib email_message
      end in
  if truthy body then strip (firstn 200 body) else [].

Definition is_attachment (part : Message) : bool :=
  match get_content_disposition lib part with
  | Some d => str_eqb d (lit "attachment")
  | None => false
  end.

Definition _has_attachments (email_message : Message) : bool :=
  existsb is_attachment (walk lib email_message).

End MessageParts.

(** ** gmail_client: connecting and fetching *)

(** [bytes.split()]: the maximal runs of bytes that are not ASCII white
    space. *)
Definition is_bytes_space (b : N) : bool :=
  ((b =? 32) || ((9 <=? b) && (b <=? 13)))%N.

Fixpoint split_from (current : bytes) (s : bytes) : list bytes :=
  match s with
  | [] => if truthy current then [current] else []
  | b :: t =>
      if is_bytes_space b
      then (if truthy current then current :: split_from [] t else split_from [] t)
      else split_from (current ++ [b]) t
  end.

Definition bytes_split (s : bytes) : list bytes := split_from [] s.

(** An element of the data list [IMAP4.fetch] returns: a pair of [bytes], a
    lone [bytes], or [None]. *)
Inductive fetch_item :=
| ItemTuple (envelope payload : bytes)
| ItemBytes (b : bytes)
| ItemNone.

Definition item_truthy (item : fetch_item) : bool :=
  match item with
  | ItemTuple _ _ => true
  | ItemBytes b => truthy b
  | ItemNone => false
  end.

(** The further calls on the connection, and the clock read by
    [datetime.now()].  [IMAP4_SSL] is the constructor; [imap_search_all] is
    [search(None, "ALL")] followed by [message_numbers[0]]. *)
Record ImapLib (Conn : Type) := mkImapLib {
  IMAP4_SSL : str -> Z -> outcome Conn;
  imap_login : str -> str -> IO Conn unit;
  imap_select : str -> IO Conn unit;
  imap_close : IO Conn unit;
  imap_logout : IO Conn unit;
  imap_settimeout : Z -> IO Conn unit;
  imap_search_all : IO Conn bytes;
  imap_fetch : bytes -> str -> IO Conn (list fetch_item);
  datetime_now : IO Conn datetime
}.

(** [x or y] on optional strings. *)
Definition str_or (x y : option str) : option str :=
  match x with
  | Some s => if truthy s then x else y
  | None => y
  end.

Definition opt_truthy (x : option str) : bool :=
  match x with
  | Some s => truthy s
  | None => false
  end.

Definition opt_str (x : option str) : str :=
  match x with
  | Some s => s
  | None => []
  end.

Definition getenv_default (getenv : string -> option str) (key default : string) : str :=
  match getenv key with
  | Some s => s
  | None => lit default
  end.

Section Session.

Variable Conn : Type.
Variable imap : ImapLib Conn.
Variable Message : Type.
Variable lib : EmailLib Message.

(** [os.getenv] and [int] applied to a [str]. *)
Variable getenv : string -> option str.
Variable int_of_str : str -> outcome Z.

Local Notation "x <- m ;; k" := (bind m (fun x => k))
  (at level 61, m at next level, right associativity).
Local Notation "m ;; k" := (bind m (fun _ => k)) (at level 61, right associativity).

(** An [outcome] as a step that leaves the connection alone. *)
Definition lift {A} (r : outcome A) : IO Conn A := fun c => (r, c).

(** [GmailClient.__init__] *)
Definition GmailClient_init (email_address0 app_password0 : option str)
  : outcome (GmailClient Conn) :=
  let email_address0 := str_or email_address0 (getenv "GMAIL_EMAIL") in
  let app_password0 := str_or app_password0 (getenv "GMAIL_APP_PASSWORD") in
  let imap_server0 := getenv_default getenv "IMAP_SERVER" "imap.gmail.com" in
  match int_of_str (getenv_default getenv "IMAP_PORT" "993") with
  | Raise e => Raise e
  | Return imap_port0 =>
      if negb (opt_truthy email_address0) || negb (opt_truthy app_password0)
      then Raise (Exception "ValueError" (lit "Gmail credentials not provided"))
      else Return (mkGmailClient (opt_str email_address0) (opt_str app_password0)
                                 imap_server0 imap_port0 None)
  end.

(** [GmailClient.connect]: the connection is stored as soon as it exists,
    before [login] and [select]. *)
Definition connect (self : GmailClient Conn) : outcome unit * GmailClient Conn :=
  let failed (e : exn) :=
    Raise (Exception "ConnectionError" (lit "Failed to connect to Gmail: " ++ str_of_exn e)) in
  match IMAP4_SSL imap (imap_server self) (imap_port self) with
  | Raise e => (failed e, self)
  | Return c =>
      let '(r, c') :=
        (imap_login imap (email_address self) (app_password self) ;;
         imap_select imap (lit "INBOX")) c in
      match r with
      | Return _ => (Return tt, with_connection self c')
      | Raise e => (failed e, with_connection self c')
      end
  end.

(** [GmailClient.disconnect]: no handler, and the connection stays stored. *)
Definition disconnect (self : GmailClient Conn) : outcome unit * GmailClient Conn :=
  match connection self with
  | None => (Return tt, self)
  | Some c =>
      let '(r, c') := (imap_close imap ;; imap_logout imap) c in
      (r, with_connection self c')
  end.

Local Abbreviation _decode_header :=
  (_decode_header (lib_decode_header lib) (lib_bytes_decode_ignore lib)).

(** Lines 88 to 107 of [fetch_recent_emails]: one message from its payload. *)
Definition parse_email (num email_body : bytes) : IO Conn EmailMessage :=
  let email_message := message_from_bytes lib email_body in
  subject0 <- lift (_decode_header (msg_get lib email_message (lit "Subject") [])) ;;
  sender0 <- lift (_decode_header (msg_get lib email_message (lit "From") [])) ;;
  let date_str := msg_get lib email_message (lit "Date") [] in
  date_obj <- (if truthy date_str
               then lift (parsedate_to_datetime lib date_str)
               else datetime_now imap) ;;
  let body_preview0 := _extract_body_preview lib email_message in
  let has_attachments0 := _has_attachments lib email_message in
  uid0 <- lift (bytes_decode lib num) ;;
  ret (mkEmailMessage uid0 subject0 sender0 date_obj body_preview0 has_attachments0).

(** The [for i, num in enumerate(reversed(recent_messages))] loop. *)
Fixpoint fetch_loop (nums : list bytes) (emails0 : list EmailMessage)
  : IO Conn (list EmailMessage) :=
  match nums with
  | [] => ret emails0
  | num :: rest =>
      data <- imap_fetch imap num (lit "(BODY.PEEK[HEADER] BODY.PEEK[TEXT])") ;;
      match data with
      | [] => fetch_loop rest emails0
      | item :: _ =>
          if negb (item_truthy item) then fetch_loop rest emails0
          else
            let email_body :=
              match item with
              | ItemTuple _ payload => payload
              | ItemBytes b => b
              | ItemNone => []
              end in
            if negb (truthy email_body) then fetch_loop rest emails0
            else
              email <- parse_email num email_body ;;
              fetch_loop rest (emails0 ++ [email])
      end
  end.

Definition fetch_recent_emails (self : GmailClient Conn) (count : Z)
  : outcome (list EmailMessage) * GmailClient Conn :=
  match connection self with
  | None => (Raise (Exception "RuntimeError" (lit "Not connected to Gmail")), self)
  | Some c =>
      let '(r, c') :=
        (imap_settimeout imap 60 ;;
         message_numbers0 <- imap_search_all imap ;;
         let message_list := bytes_split message_numbers0 in
         fetch_loop (listRecent message_list count) []) c in
      match r with
      | Return emails0 => (Return emails0, with_connection self c')
      | Raise e =>
          (Raise (Exception "RuntimeError" (lit "Failed to fetch emails: " ++ str_of_exn e)),
           with_connection self c')
      end
  end.

End Session.

(** [sub] is [l] with some elements left out. *)
Inductive subseq {A : Type} : list A -> list A -> Prop :=
| subseq_nil : subseq [] []
| subseq_skip (x : A) (sub l : list A) : subseq sub l -> subseq sub (x :: l)
| subseq_take (x : A) (sub l : list A) : subseq sub l -> subseq (x :: sub) (x :: l).

(** A recording connection on which every command for the message [bad]
    raises. *)
Definition flaky_store (bad : str) (message_set command flag_list : str)
  : IO MockConn unit :=
  fun c =>
    if str_eqb message_set bad
    then (Raise (Exception "error" (lit "STORE command error: BAD")), c)
    else (Return tt, c ++ [STORE message_set command flag_list]).

(** The two STORE commands [archive_emails] sends for one uid. *)
Definition archive_commands (uid0 : str) : list ImapCommand :=
  [ STORE uid0 (lit "+X-GM-LABELS") (lit "\Important");
    STORE uid0 (lit "+FLAGS") (lit "\Deleted") ].

Definition unconnected_client : GmailClient MockConn :=
  mkGmailClient (lit "user@gmail.com") (lit "app-password") (lit "imap.gmail.com") 993 None.

(** ** web_app: the [/login] and [/disconnect] handlers *)

(** The four values [login] reads from the request body:
    [data.get("email")], [data.get("password")] (absent, [null] or a string),
    [int(data.get("clusters", 5))] and [int(data.get("count", 200))], in the
    order the handler evaluates them. *)
Record LoginRequest := mkLoginRequest {
  req_email : option str;
  req_password : option str;
  req_clusters : outcome Z;
  req_count : outcome Z
}.

(** One entry of ["emails"] and one of ["clusters"] in the answer. *)
Record EmailData := mkEmailData {
  data_uid : str;
  data_subject : str;
  data_sender : str;
  data_date : str;
  data_preview : str;
  data_has_attachments : bool
}.

Record ClusterData := mkClusterData {
  data_id : Z;
  data_name : str;
  data_description : str;
  data_keywords : list str;
  data_email_count : Z;
  data_emails : list EmailData
}.

Inductive LoginBody :=
| LoginSuccess (clusters_data : list ClusterData) (total_emails : Z)
| LoginError (error : str).

Record LoginResponse := mkLoginResponse { login_status : Z; login_body : LoginBody }.

(** A request to the application. *)
Inductive Request :=
| PostLogin (request : LoginRequest)
| PostArchiveCluster (request_cluster_id : outcome Z)
| PostDisconnect.

Section WebApp.

Variable title : str -> str.

(** [datetime.strftime] and [demo_data.generate_demo_emails]; the random
    choices of the latter are not modelled. *)
Variable strftime : datetime -> str -> str.
Variable generate_demo_emails : Z -> list EmailMessage.

Variable Conn : Type.
Variable imap_store : str -> str -> str -> IO Conn unit.
Variable imap_expunge : IO Conn unit.
Variable imap : ImapLib Conn.
Variable Message : Type.
Variable lib : EmailLib Message.
Variable getenv : string -> option str.
Variable int_of_str : str -> outcome Z.

Definition email_data (email : EmailMessage) : EmailData :=
  {| data_uid := uid email;
     data_subject := subject email;
     data_sender := sender email;
     data_date := strftime (date email) (lit "%Y-%m-%d %H:%M");
     data_preview := body_preview email;
     data_has_attachments := has_attachments email |}.

Definition cluster_data (cluster : EmailCluster) : ClusterData :=
  {| data_id := cluster_id cluster;
     data_name := name cluster;
     data_description := description cluster;
     data_keywords := keywords cluster;
     data_email_count := len (emails cluster);
     data_emails := map email_data (emails cluster) |}.

(** The demo branch and the Gmail branch of [login]: the emails, or the
    exception, with the globals as the branch leaves them.  The new client is
    stored before [connect] is called. *)
Definition login_emails (email_address0 app_password0 : option str) (email_count : Z)
           (st : AppState Conn) : outcome (list EmailMessage) * AppState Conn :=
  if str_eqb (opt_str email_address0) (lit "demo@gmail.com")
  then (Return (generate_demo_emails email_count), st)
  else
    match GmailClient_init Conn getenv int_of_str email_address0 app_password0 with
    | Raise e => (Raise e, st)
    | Return client =>
        match connect imap client with
        | (Raise e, client') => (Raise e, mkAppState (current_clusters st) (Some client'))
        | (Return _, client') =>
            let '(r, client'') := fetch_recent_emails imap lib client' email_count in
            (r, mkAppState (current_clusters st) (Some client''))
        end
    end.

Definition login (request : LoginRequest) (st : AppState Conn)
  : LoginResponse * AppState Conn :=
  match req_clusters request with
  | Raise e => (mkLoginResponse 500 (LoginError (str_of_exn e)), st)
  | Return num_clusters =>
      match req_count request with
      | Raise e => (mkLoginResponse 500 (LoginError (str_of_exn e)), st)
      | Return email_count =>
          if negb (opt_truthy (req_email request)) || negb (opt_truthy (req_password request))
          then (mkLoginResponse 400 (LoginError (lit "Email and password are required")), st)
          else
            match login_emails (req_email request) (req_password request) email_count st with
            | (Raise e, st1) => (mkLoginResponse 500 (LoginError (str_of_exn e)), st1)
            | (Return emails0, st1) =>
                let clusters := cluster_emails title default_clusterer emails0 num_clusters in
                (mkLoginResponse 200 (LoginSuccess (map cluster_data clusters) (len emails0)),
                 mkAppState clusters (current_gmail_client st1))
            end
      end
  end.

(** The [/disconnect] handler.  It has no [try]: [Raise] is the exception
    leaving the handler, [Return] the answer [{"success": true}]. *)
Definition disconnect_handler (st : AppState Conn) : outcome unit * AppState Conn :=
  match current_gmail_client st with
  | Some client =>
      match disconnect imap client with
      | (Return _, client') => (Return tt, mkAppState (current_clusters st) None)
      | (Raise e, client') => (Raise e, mkAppState (current_clusters st) (Some client'))
      end
  | None => (Return tt, st)
  end.

(** The globals after one request, and after a sequence of requests on a
    fresh process. *)
Definition handle (st : AppState Conn) (r : Request) : AppState Conn :=
  match r with
  | PostLogin request => snd (login request st)
  | PostArchiveCluster request_cluster_id =>
      snd (archive_cluster imap_store imap_expunge request_cluster_id st)
  | PostDisconnect => snd (disconnect_handler st)
  end.

Definition initial_state : AppState Conn := mkAppState [] None.

Definition run_session (requests : list Request) : AppState Conn :=
  fold_left handle requests initial_state.

End WebApp.

(** ** cli: the rows of [display_clusters] *)

(** [s.split('<')[0]] *)
Fixpoint before_lt (s : str) : str :=
  match s with
  | [] => []
  | c :: t => if N.eqb c 60 then [] else c :: before_lt t
  end.


Section Display.

Variable strftime : datetime -> str -> str.



End Display.

(** ** Sample library behaviour and sample sessions *)

(** A parsed message as a tree of depth one. *)
Inductive MockMessage :=
| MockPart (content_type : str) (disposition : option str) (payload : option bytes)
| MockMultipart (parts : list (str * option str * option bytes)).

Definition mock_walk (m : MockMessage) : list MockMessage :=
  match m with
  | MockPart _ _ _ => [m]
  | MockMultipart parts => m :: map (fun '(t, d, p) => MockPart t d p) parts
  end.

Definition mock_lib : EmailLib MockMessage :=
  {| message_from_bytes := fun b => MockPart (lit "text/plain") None (Some b);
     msg_get := fun _ _ default => default;
     is_multipart := fun m => match m with MockMultipart _ => true | _ => false end;
     walk := mock_walk;
     get_content_type :=
       fun m => match m with MockPart t _ _ => t | MockMultipart _ => lit "multipart/mixed" end;
     get_content_disposition :=
       fun m => match m with MockPart _ d _ => d | MockMultipart _ => None end;
     get_payload_decoded :=
       fun m => match m with MockPart _ _ p => p | MockMultipart _ => None end;
     get_payload_str := fun _ => [];
     utf8_decode_ignore := fun b => filter (fun c => (c <? 128)%N) b;
     lib_decode_header := sample_decode_header;
     lib_bytes_decode_ignore := sample_bytes_decode;
     parsedate_to_datetime := fun _ => Return 0;
     bytes_decode := fun b => Return b |}.

(** The same library on messages whose Subject is the encoded word of
    [sample_header]. *)
Definition unknown_charset_lib : EmailLib MockMessage :=
  {| message_from_bytes := message_from_bytes mock_lib;
     msg_get :=
       fun _ header_name default =>
         if str_eqb header_name (lit "Subject") then sample_header else default;
     is_multipart := is_multipart mock_lib;
     walk := walk mock_lib;
     get_content_type := get_content_type mock_lib;
     get_content_disposition := get_content_disposition mock_lib;
     get_payload_decoded := get_payload_decoded mock_lib;
     get_payload_str := get_payload_str mock_lib;
     utf8_decode_ignore := utf8_decode_ignore mock_lib;
     lib_decode_header := sample_decode_header;
     lib_bytes_decode_ignore := sample_bytes_decode;
     parsedate_to_datetime := parsedate_to_datetime mock_lib;
     bytes_decode := bytes_decode mock_lib |}.

Definition html_then_plain : MockMessage :=
  MockMultipart [ (lit "text/html", None, Some (lit "<p>hello</p>"));
                  (lit "text/plain", None, Some (lit "  hello world  ")) ].

Definition html_only : MockMessage :=
  MockMultipart [ (lit "text/html", None, Some (lit "<p>hello</p>")) ].

(** A mailbox with the message numbers 1, 2, 3, of which number 2 has no
    payload. *)
Definition mock_imap : ImapLib MockConn :=
  {| IMAP4_SSL := fun _ _ => Return [];
     imap_login := fun _ _ c => (Return tt, c);
     imap_select := fun _ c => (Return tt, c);
     imap_close := fun c => (Return tt, c);
     imap_logout := fun c => (Return tt, c);
     imap_settimeout := fun _ c => (Return tt, c);
     imap_search_all := fun c => (Return (lit "1 2 3"), c);
     imap_fetch :=
       fun num _ c =>
         (Return (if str_eqb num (lit "2") then [ItemNone]
                  else [ItemTuple num (lit "  hello world  ")]), c);
     datetime_now := fun c => (Return 0, c) |}.

Definition mock_strftime (d : datetime) (format : str) : str := lit "2024-01-01 00:00".

Definition mock_demo_emails (count : Z) : list EmailMessage := inbox_x3_y1.

Definition mock_getenv (key : string) : option str := None.

Definition mock_int_of_str (s : str) : outcome Z := Return 993.

Definition mock_login :=
  login ascii_title mock_strftime mock_demo_emails mock_imap mock_lib
        mock_getenv mock_int_of_str.

Definition demo_request : LoginRequest :=
  mkLoginRequest (Some (lit "demo@gmail.com")) (Some (lit "anything")) (Return 5) (Return 200).

Definition live_state : AppState MockConn := mkAppState [] (Some mock_client).

(** ** email_clusterer: [_analyze_cluster] *)

(** [collections.Counter(l)] for a list of [str]: an insertion-ordered
    dictionary of counts. *)
Definition counter_add (w : str) (counts : Dict.t Z) : Dict.t Z :=
  Dict.setitem w (match Dict.getitem w counts with Some n => n | None => 0 end + 1) counts.

Definition Counter (l : list str) : Dict.t Z :=
  fold_left (fun counts w => counter_add w counts) l [].

(** [Counter.most_common(n)]: the [n] first items of the stable sort by
    decreasing count, so that equal counts keep their insertion order. *)
Fixpoint insert_by_count (x : str * Z) (l : list (str * Z)) : list (str * Z) :=
  match l with
  | [] => [x]
  | y :: r => if snd y <=? snd x then x :: l else y :: insert_by_count x r
  end.

Definition sorted_by_count (l : list (str * Z)) : list (str * Z) :=
  fold_right insert_by_count [] l.

Definition most_common (n : nat) (counts : Dict.t Z) : list (str * Z) :=
  firstn n (sorted_by_count (Dict.items counts)).

(** [re.findall(r'\b\w+\b', s)]: the maximal runs of word characters. *)
Fixpoint word_runs_from (is_word : char -> bool) (current : str) (s : str) : list str :=
  match s with
  | [] => if truthy current then [current] else []
  | c :: t =>
      if is_word c then word_runs_from is_word (current ++ [c]) t
      else if truthy current then current :: word_runs_from is_word [] t
           else word_runs_from is_word [] t
  end.

Definition findall_words (is_word : char -> bool) (s : str) : list str :=
  word_runs_from is_word [] s.

Section Analyze.

(** [str.title], [str.lower] and the characters [\w] matches in a [str]
    pattern. *)
Variable title : str -> str.
Variable lower : str -> str.
Variable is_word : char -> bool.

(** The words of all subjects, in order. *)
Definition subject_words (cluster_emails0 : list EmailMessage) : list str :=
  flat_map (fun subject0 => findall_words is_word (lower subject0))
           (map subject cluster_emails0).

Definition is_keyword (item : str * Z) : bool :=
  (1 <? snd item) && (2 <? len (fst item)).

Definition _analyze_cluster (cluster_emails0 : list EmailMessage) (cluster_id0 : Z)
  : EmailCluster :=
  let senders := map sender cluster_emails0 in
  let all_words := subject_words cluster_emails0 in
  let word_counts := Counter all_words in
  let common_words := map fst (filter is_keyword (most_common 5 word_counts)) in
  let sender_domains := map _extract_domain senders in
  let domain_counts := Counter sender_domains in
  let top_domain :=
    match most_common 1 domain_counts with
    | (domain, _) :: _ => domain
    | [] => []
    end in
  let '(name0, description0) :=
    _generate_cluster_info title lower common_words top_domain (len cluster_emails0) in
  {| cluster_id := cluster_id0;
     name := name0;
     description := description0;
     emails := cluster_emails0;
     keywords := common_words |}.

End Analyze.

(** The number of occurrences of [w] in [l], and the distinct elements of [l]
    in order of first occurrence as the grouping loops build them. *)
Definition occurrences (l : list str) (w : str) : Z := len (filter (str_eqb w) l).

Definition distinct_keys (l : list str) : list str :=
  fold_left (fun ks d => add_key d ks) l [].

(** [f] does not increase along [l]. *)
Fixpoint decreasing {A} (f : A -> Z) (l : list A) : Prop :=
  match l with
  | [] => True
  | x :: r => Forall (fun y => f y <= f x) r /\ decreasing f r
  end.

(** * Properties *)

(** ** Strings and messages: equality tests *)

Lemma str_eqb_eq (a b : str) : str_eqb a b = true <-> a = b.
Proof.
  revert b; induction a as [|x a IH]; destruct b as [|y b]; simpl;
    try (split; [discriminate | discriminate]); try tauto.
  rewrite andb_true_iff, N.eqb_eq, IH. split.
  - intros [-> ->]; reflexivity.
  - intros H; injection H; auto.
Qed.

Lemma str_eqb_refl (a : str) : str_eqb a a = true.
Proof. apply str_eqb_eq; reflexivity. Qed.

Lemma str_eqb_neq (a b : str) : str_eqb a b = false <-> a <> b.
Proof.
  rewrite <- str_eqb_eq. destruct (str_eqb a b); split; congruence.
Qed.

Lemma str_eqb_sym (a b : str) : str_eqb a b = str_eqb b a.
Proof.
  destruct (str_eqb a b) eqn:E.
  - apply str_eqb_eq in E; subst; symmetry; apply str_eqb_refl.
  - symmetry; apply str_eqb_neq; apply str_eqb_neq in E; congruence.
Qed.

Lemma msg_eqb_eq (a b : EmailMessage) : msg_eqb a b = true <-> a = b.
Proof.
  unfold msg_eqb. rewrite !andb_true_iff, !str_eqb_eq, Z.eqb_eq, eqb_true_iff.
  destruct a, b; simpl. split.
  - intros [[[[[-> ->] ->] ->] ->] ->]; reflexivity.
  - intros H; injection H; intros; subst; tauto.
Qed.

Lemma mem_In (m : EmailMessage) (l : list EmailMessage) : mem m l = true <-> In m l.
Proof.
  unfold mem. rewrite existsb_exists. split.
  - intros [x [Hx E]]. apply msg_eqb_eq in E; subst; assumption.
  - intros H; exists m; split; [assumption | apply msg_eqb_eq; reflexivity].
Qed.

(** ** Concrete runs *)

Example extract_domain_display_name :
  _extract_domain (lit "Bob <b@x.com>") = lit "x.com".
Proof. reflexivity. Qed.

Example extract_domain_skips_bare_at :
  _extract_domain (lit "a@ b@www.x.com> foo") = lit "www.x.com".
Proof. reflexivity. Qed.

Example extract_domain_trailing_at : _extract_domain (lit "foo@") = [].
Proof. reflexivity. Qed.

Example extract_domain_no_at : _extract_domain (lit "MAILER-DAEMON") = [].
Proof. reflexivity. Qed.

Example clean_mail_google :
  clean ascii_title (lit "www.mail.google.com") = lit "Mail.Google".
Proof. reflexivity. Qed.

(** Three messages from [x.com] and one from [y.com], threshold 3: one
    cluster "X (3)" with the three [x.com] messages. *)
Example scenario_x3_y1 :
  map (fun c => (cluster_id c, name c, map uid (emails c))) clusters_x3_y1
  = [(0, lit "X (3)", [lit "1"; lit "2"; lit "3"])].
Proof. reflexivity. Qed.

(** ** The first loop: grouping by domain *)

Lemma add_key_In (d k : str) (ks : list str) :
  In k (add_key d ks) <-> In k ks \/ k = d.
Proof.
  induction ks as [|x ks IH]; simpl.
  - intuition.
  - destruct (str_eqb x d) eqn:E; simpl.
    + apply str_eqb_eq in E; subst. intuition.
    + rewrite IH. intuition.
Qed.

Lemma add_key_NoDup (d : str) (ks : list str) : NoDup ks -> NoDup (add_key d ks).
Proof.
  induction 1 as [|x ks Hx Hnd IH]; simpl.
  - constructor; [intros [] | constructor].
  - destruct (str_eqb x d) eqn:E.
    + constructor; assumption.
    + constructor; [|assumption].
      rewrite add_key_In. intros [H | H]; [contradiction|].
      apply str_eqb_neq in E; congruence.
Qed.

Lemma domain_keys_snoc (p : list EmailMessage) (e : EmailMessage) :
  domain_keys (p ++ [e]) = add_key (domain_of e) (domain_keys p).
Proof. unfold domain_keys. rewrite fold_left_app. reflexivity. Qed.

Lemma domain_keys_NoDup (emails : list EmailMessage) : NoDup (domain_keys emails).
Proof.
  induction emails as [|e p IH] using rev_ind.
  - constructor.
  - rewrite domain_keys_snoc. apply add_key_NoDup, IH.
Qed.

Lemma domain_keys_In (emails : list EmailMessage) (k : str) :
  In k (domain_keys emails) <-> exists e, In e emails /\ domain_of e = k.
Proof.
  induction emails as [|e p IH] using rev_ind.
  - simpl. split; [intros [] | intros [e [[] _]]].
  - rewrite domain_keys_snoc, add_key_In, IH. split.
    + intros [[x [Hx E]] | ->].
      * exists x; split; [apply in_or_app; left|]; assumption.
      * exists e; split; [apply in_or_app; right; left|]; reflexivity.
    + intros [x [Hx E]]. apply in_app_or in Hx. destruct Hx as [Hx | [-> | []]].
      * left; exists x; tauto.
      * right; congruence.
Qed.

Lemma group_of_snoc (p : list EmailMessage) (e : EmailMessage) (k : str) :
  group_of (p ++ [e]) k = group_of p k ++ (if in_domain k e then [e] else []).
Proof. unfold group_of. rewrite filter_app. simpl. destruct (in_domain k e); reflexivity. Qed.

Lemma group_of_nil_iff (emails : list EmailMessage) (k : str) :
  group_of emails k = [] <-> ~ In k (domain_keys emails).
Proof.
  rewrite domain_keys_In. unfold group_of. split.
  - intros H [e [He E]].
    assert (In e (filter (in_domain k) emails)) as Hin.
    { apply filter_In; split; [assumption|]. unfold in_domain. apply str_eqb_eq, E. }
    rewrite H in Hin; contradiction.
  - intros H. destruct (filter (in_domain k) emails) as [|e l] eqn:E; [reflexivity|].
    exfalso; apply H. exists e.
    assert (In e (filter (in_domain k) emails)) as Hin by (rewrite E; left; reflexivity).
    apply filter_In in Hin. destruct Hin as [Hin Hd]. split; [assumption|].
    apply str_eqb_eq, Hd.
Qed.

Lemma group_step_add (g : Dict.t (list EmailMessage)) (e : EmailMessage) :
  group_step g e = group_add (domain_of e) e g.
Proof.
  unfold group_step. fold (domain_of e). generalize (domain_of e) as d; intro d.
  induction g as [|[k v] g IH]; simpl.
  - rewrite !str_eqb_refl. reflexivity.
  - destruct (str_eqb k d) eqn:E; simpl.
    + rewrite !E. reflexivity.
    + rewrite <- IH. destruct (Dict.contains d g); simpl; rewrite ?E.
      * destruct (Dict.getitem d g); simpl; rewrite ?E; reflexivity.
      * destruct (Dict.getitem d (Dict.setitem d [] g)); simpl; rewrite ?E; reflexivity.
Qed.

Lemma group_add_tabulate (p : list EmailMessage) (e : EmailMessage) (ks : list str) :
  NoDup ks ->
  In (domain_of e) ks \/ group_of p (domain_of e) = [] ->
  group_add (domain_of e) e (map (fun k => (k, group_of p k)) ks)
  = map (fun k => (k, group_of (p ++ [e]) k)) (add_key (domain_of e) ks).
Proof.
  induction 1 as [|x ks Hx Hnd IH]; intros Hd; simpl.
  - destruct Hd as [[] | Hd]. rewrite group_of_snoc, Hd.
    unfold in_domain. rewrite str_eqb_refl. reflexivity.
  - destruct (str_eqb x (domain_of e)) eqn:E; simpl.
    + rewrite group_of_snoc. unfold in_domain at 1. rewrite str_eqb_sym, E.
      f_equal. apply map_ext_in. intros k Hk. rewrite group_of_snoc.
      unfold in_domain. apply str_eqb_eq in E; subst x.
      replace (str_eqb (domain_of e) k) with false; [rewrite app_nil_r; reflexivity|].
      symmetry; apply str_eqb_neq. intros Heq; rewrite Heq in Hx; contradiction.
    + rewrite IH.
      * rewrite group_of_snoc. unfold in_domain at 1. rewrite str_eqb_sym, E, app_nil_r.
        reflexivity.
      * destruct Hd as [[-> | Hd] | Hd]; [rewrite str_eqb_refl in E; discriminate | left | right];
          assumption.
Qed.

(** The dictionary built by the first loop: one entry per distinct domain, in
    order of first occurrence, holding the messages of that domain in input
    order. *)
Lemma group_by_domain_spec (emails : list EmailMessage) :
  group_by_domain emails = map (fun k => (k, group_of emails k)) (domain_keys emails).
Proof.
  unfold group_by_domain.
  induction emails as [|e p IH] using rev_ind.
  - reflexivity.
  - rewrite fold_left_app. simpl. rewrite IH, group_step_add, domain_keys_snoc.
    apply group_add_tabulate; [apply domain_keys_NoDup|].
    destruct (group_of p (domain_of e)) eqn:E; [right; reflexivity | left].
    destruct (in_dec (list_eq_dec N.eq_dec) (domain_of e) (domain_keys p)) as [H | H];
      [assumption|].
    apply group_of_nil_iff in H. congruence.
Qed.

(** ** The second loop: numbering the retained groups *)

Section ClusteringFacts.

Variable title : str -> str.
Variable self : EmailClusterer.

Local Abbreviation big := (big self).
Local Abbreviation reaches := (reaches self).
Local Abbreviation some_domain_reaches := (some_domain_reaches self).
Local Abbreviation kept_keys := (kept_keys self).
Local Abbreviation domain_cluster := (domain_cluster title).
Local Abbreviation number_clusters := (number_clusters title).
Local Abbreviation cluster_emails := (cluster_emails title self).
Local Abbreviation _rule_based_clustering := (_rule_based_clustering title self).

Lemma cluster_step_eq (acc : list EmailCluster) (n : Z) (item : str * list EmailMessage) :
  cluster_step title self (acc, n) item
  = if big item then (acc ++ [domain_cluster n item], n + 1) else (acc, n).
Proof. destruct item; reflexivity. Qed.

Lemma cluster_loop (items : list (str * list EmailMessage)) :
  forall (acc : list EmailCluster) (n : Z),
    fold_left (cluster_step title self) items (acc, n)
    = (acc ++ number_clusters n (filter big items), n + len (filter big items)).
Proof.
  induction items as [|item items IH]; intros acc n; cbn [fold_left filter].
  - rewrite app_nil_r. unfold len; simpl. f_equal; lia.
  - rewrite cluster_step_eq. destruct (big item).
    + rewrite IH, <- app_assoc. cbn [number_clusters app].
      f_equal. unfold len; cbn [length]. lia.
    + apply IH.
Qed.

Lemma number_clusters_length (items : list (str * list EmailMessage)) :
  forall n, length (number_clusters n items) = length items.
Proof. induction items as [|it items IH]; intros n; simpl; [|rewrite IH]; reflexivity. Qed.

Lemma number_clusters_ids (items : list (str * list EmailMessage)) :
  forall n, map cluster_id (number_clusters n items)
            = map (fun i => n + Z.of_nat i) (seq 0 (length items)).
Proof.
  induction items as [|it items IH]; intros n; simpl; [reflexivity|].
  rewrite IH, <- seq_shift, map_map. f_equal; [f_equal; lia|].
  apply map_ext. intros i. lia.
Qed.

Lemma number_clusters_emails (items : list (str * list EmailMessage)) :
  forall n, map emails (number_clusters n items) = map snd items.
Proof. induction items as [|it items IH]; intros n; simpl; [|rewrite IH]; reflexivity. Qed.

Lemma number_clusters_In (items : list (str * list EmailMessage)) :
  forall n c, In c (number_clusters n items) ->
              exists i item, In item items /\ c = domain_cluster i item.
Proof.
  induction items as [|it items IH]; intros n c; simpl; [intros []|].
  intros [<- | H].
  - exists n, it; split; [left|]; reflexivity.
  - destruct (IH _ _ H) as [i [item [Hin E]]]. exists i, item; split; [right|]; assumption.
Qed.

Lemma number_clusters_Forall2 (items : list (str * list EmailMessage)) :
  forall n, Forall2 (fun c item => emails c = snd item
                                   /\ description c = lit "Emails from " ++ fst item
                                   /\ keywords c = [])
                    (number_clusters n items) items.
Proof.
  induction items as [|it items IH]; intros n; simpl; constructor; [|apply IH].
  repeat split.
Qed.

Lemma number_clusters_count (P : list EmailMessage -> bool)
      (items : list (str * list EmailMessage)) :
  forall n, length (filter (fun c => P (emails c)) (number_clusters n items))
            = length (filter (fun item => P (snd item)) items).
Proof.
  induction items as [|it items IH]; intros n; simpl; [reflexivity|].
  destruct (P (snd it)); simpl; rewrite IH; reflexivity.
Qed.

(** The retained items of the dictionary are the groups of the kept keys. *)
Lemma retained_items (msgs : list EmailMessage) :
  filter big (Dict.items (group_by_domain msgs))
  = map (fun k => (k, group_of msgs k)) (kept_keys msgs).
Proof.
  unfold Dict.items. rewrite group_by_domain_spec, filter_map_swap. reflexivity.
Qed.

Lemma kept_keys_In (msgs : list EmailMessage) (k : str) :
  In k (kept_keys msgs) <-> In k (domain_keys msgs) /\ reaches msgs k = true.
Proof. apply filter_In. Qed.

Lemma kept_keys_NoDup (msgs : list EmailMessage) : NoDup (kept_keys msgs).
Proof. apply NoDup_filter, domain_keys_NoDup. Qed.

Lemma kept_keys_truthy (msgs : list EmailMessage) :
  truthy (kept_keys msgs) = some_domain_reaches msgs.
Proof.
  apply eq_true_iff_eq. unfold some_domain_reaches. rewrite existsb_exists. split.
  - destruct (kept_keys msgs) as [|k ks] eqn:E; [discriminate|]. intros _.
    assert (In k (kept_keys msgs)) as Hk by (rewrite E; left; reflexivity).
    apply kept_keys_In in Hk. destruct Hk as [Hk Hr].
    apply domain_keys_In in Hk. destruct Hk as [e [He <-]]. exists e; tauto.
  - intros [e [He Hr]].
    assert (In (domain_of e) (kept_keys msgs)) as Hk.
    { apply kept_keys_In; split; [apply domain_keys_In; exists e; tauto | assumption]. }
    destruct (kept_keys msgs); [destruct Hk | reflexivity].
Qed.

(** The output of [_rule_based_clustering] as a function of the input. *)
Lemma rule_based_spec (msgs : list EmailMessage) :
  _rule_based_clustering msgs
  = if some_domain_reaches msgs
    then number_clusters 0 (map (fun k => (k, group_of msgs k)) (kept_keys msgs))
    else [_create_single_cluster msgs].
Proof.
  unfold _rule_based_clustering. rewrite cluster_loop. simpl fst.
  rewrite retained_items, <- kept_keys_truthy.
  destruct (kept_keys msgs); reflexivity.
Qed.

(** The output of [cluster_emails] as a function of the input. *)
Lemma cluster_emails_spec (msgs : list EmailMessage) (num_clusters : Z) :
  cluster_emails msgs num_clusters
  = if (len msgs <? min_cluster_size self) || negb (some_domain_reaches msgs)
    then [_create_single_cluster msgs]
    else number_clusters 0 (map (fun k => (k, group_of msgs k)) (kept_keys msgs)).
Proof.
  unfold cluster_emails. destruct (len msgs <? min_cluster_size self); [reflexivity|].
  rewrite rule_based_spec. destruct (some_domain_reaches msgs); reflexivity.
Qed.

End ClusteringFacts.

(** ** Lists: counting and splitting by a key *)

Lemma filter_none {A} (f : A -> bool) (l : list A) :
  (forall x, In x l -> f x = false) -> filter f l = [].
Proof.
  induction l as [|a l IH]; intros H; simpl; [reflexivity|].
  rewrite (H a (or_introl eq_refl)). apply IH. intros x Hx; apply H; right; assumption.
Qed.

Lemma filter_split_perm {A} (f g : A -> bool) (l : list A) :
  (forall x, In x l -> f x = true -> g x = false) ->
  Permutation (filter f l ++ filter g l) (filter (fun x => f x || g x) l).
Proof.
  induction l as [|a l IH]; intros H; simpl; [constructor|].
  assert (Permutation (filter f l ++ filter g l) (filter (fun x => f x || g x) l)) as IH'.
  { apply IH. intros x Hx; apply H; right; assumption. }
  destruct (f a) eqn:Ef; simpl.
  - rewrite (H a (or_introl eq_refl) Ef). constructor; exact IH'.
  - destruct (g a); simpl; [|exact IH'].
    apply Permutation_sym, Permutation_cons_app, Permutation_sym, IH'.
Qed.

Lemma count_key_NoDup (d : str) (ks : list str) :
  NoDup ks ->
  length (filter (str_eqb d) ks) = if existsb (str_eqb d) ks then 1%nat else 0%nat.
Proof.
  induction 1 as [|k ks Hk Hnd IH]; simpl; [reflexivity|].
  destruct (str_eqb d k) eqn:E; simpl.
  - apply str_eqb_eq in E; subst k. rewrite filter_none; [reflexivity|].
    intros x Hx. apply str_eqb_neq. intros ->; contradiction.
  - exact IH.
Qed.

Lemma existsb_key_In (d : str) (ks : list str) :
  existsb (str_eqb d) ks = true <-> In d ks.
Proof.
  rewrite existsb_exists. split.
  - intros [x [Hx E]]. apply str_eqb_eq in E; subst; assumption.
  - intros H; exists d; split; [assumption | apply str_eqb_refl].
Qed.

Lemma mem_group_of (msgs : list EmailMessage) (m : EmailMessage) (k : str) :
  In m msgs -> mem m (group_of msgs k) = str_eqb (domain_of m) k.
Proof.
  intros Hm. apply eq_true_iff_eq. rewrite mem_In. unfold group_of.
  rewrite filter_In. unfold in_domain. tauto.
Qed.

Lemma group_of_In (msgs : list EmailMessage) (m : EmailMessage) (k : str) :
  In m (group_of msgs k) <-> In m msgs /\ domain_of m = k.
Proof. unfold group_of, in_domain. rewrite filter_In, str_eqb_eq. reflexivity. Qed.

(** The groups of distinct keys, one after the other, hold the messages whose
    domain is one of the keys. *)
Lemma concat_groups_perm (msgs : list EmailMessage) (ks : list str) :
  NoDup ks ->
  Permutation (concat (map (group_of msgs) ks))
              (filter (fun e => existsb (str_eqb (domain_of e)) ks) msgs).
Proof.
  induction 1 as [|k ks Hk Hnd IH]; simpl.
  - rewrite filter_none; [constructor | reflexivity].
  - eapply Permutation_trans; [apply Permutation_app_head, IH|].
    unfold group_of, in_domain. apply filter_split_perm.
    intros e _ E. apply str_eqb_eq in E.
    destruct (existsb (str_eqb (domain_of e)) ks) eqn:Ex; [|reflexivity].
    apply existsb_key_In in Ex. rewrite E in Ex. contradiction.
Qed.

(** A sender without [@] has no match. *)
Lemma re_search_domain_no_at (s : str) :
  contains_char AT s = false -> re_search_domain s = None.
Proof.
  unfold contains_char. induction s as [|c t IH]; [reflexivity|].
  cbn [existsb re_search_domain]. intros H.
  apply orb_false_iff in H. destruct H as [Hc Ht].
  rewrite N.eqb_sym in Hc. rewrite Hc. cbn [andb]. apply IH, Ht.
Qed.

Lemma getitem_tabulate {V} (F : str -> V) (k : str) (ks : list str) :
  In k ks -> Dict.getitem k (map (fun k => (k, F k)) ks) = Some (F k).
Proof.
  induction ks as [|x ks IH]; simpl; [intros []|].
  destruct (str_eqb x k) eqn:E.
  - intros _. apply str_eqb_eq in E; subst; reflexivity.
  - intros [-> | H]; [rewrite str_eqb_refl in E; discriminate | apply IH, H].
Qed.

Lemma ids_from_zero_NoDup (n : nat) : NoDup (map Z.of_nat (seq 0 n)).
Proof.
  apply Finite.Injective_map_NoDup; [|apply seq_NoDup].
  intros x y H. apply Nat2Z.inj, H.
Qed.

(** ** The Cluster Engine *)

Section ClusterEngine.

Variable title : str -> str.
Variable self : EmailClusterer.

Local Abbreviation big := (big self).
Local Abbreviation reaches := (reaches self).
Local Abbreviation some_domain_reaches := (some_domain_reaches self).
Local Abbreviation kept_keys := (kept_keys self).
Local Abbreviation domain_cluster := (domain_cluster title).
Local Abbreviation number_clusters := (number_clusters title).
Local Abbreviation cluster_emails := (cluster_emails title self).

Lemma number_clusters_member (items : list (str * list EmailMessage))
      (item : str * list EmailMessage) :
  In item items -> forall n, exists i, In (domain_cluster i item) (number_clusters n items).
Proof.
  induction items as [|it items IH]; simpl; [intros []|].
  intros [-> | H] n.
  - exists n; left; reflexivity.
  - destruct (IH H (n + 1)) as [i Hi]. exists i; right; exact Hi.
Qed.

(** The clusters of the domain-grouping path are the groups of the kept
    keys. *)
Lemma kept_cluster_inv (msgs : list EmailMessage) (n : Z) (c : EmailCluster) :
  In c (number_clusters n (map (fun k => (k, group_of msgs k)) (kept_keys msgs))) ->
  exists k, In k (kept_keys msgs) /\ emails c = group_of msgs k.
Proof.
  intros H. apply number_clusters_In in H. destruct H as [i [item [Hin ->]]].
  apply in_map_iff in Hin. destruct Hin as [k [<- Hk]]. exists k; split; [assumption | reflexivity].
Qed.

(** C7. When the input has fewer than [min_cluster_size] messages (the empty
    input included), [cluster_emails] returns exactly one cluster: its members
    are the input messages in input order, its name is "All Messages (N)" with
    N the input length, and its keyword list is empty. *)
Theorem few_messages_single_cluster (msgs : list EmailMessage) (num_clusters : Z) :
  len msgs < min_cluster_size self ->
  cluster_emails msgs num_clusters
  = [ {| cluster_id := 0;
         name := lit "All Messages (" ++ str_of_nat (length msgs) ++ lit ")";
         description := lit "All " ++ str_of_nat (length msgs) ++ lit " recent emails";
         emails := msgs;
         keywords := [] |} ].
Proof.
  intros H. unfold cluster_emails. apply Z.ltb_lt in H. rewrite H. reflexivity.
Qed.

(** C3. The target count has no influence on the result: for any two values
    of [num_clusters], [cluster_emails] returns the same list of clusters
    (same number, members, ids and names). *)
Theorem num_clusters_is_ignored (msgs : list EmailMessage) (n1 n2 : Z) :
  cluster_emails msgs n1 = cluster_emails msgs n2.
Proof. reflexivity. Qed.

(** C8. Within one call the cluster ids are 0, 1, 2, ... in output order,
    hence pairwise distinct and strictly increasing from 0; the output is
    either the single all-inclusive cluster or follows, item by item, the
    retained entries of the domain dictionary in its iteration order. *)
Theorem cluster_ids_count_from_zero (msgs : list EmailMessage) (num_clusters : Z) :
  let out := cluster_emails msgs num_clusters in
  map cluster_id out = map Z.of_nat (seq 0 (length out))
  /\ NoDup (map cluster_id out)
  /\ (forall i j ci cj, nth_error out i = Some ci -> nth_error out j = Some cj ->
        (i < j)%nat -> cluster_id ci < cluster_id cj)
  /\ (out = [_create_single_cluster msgs]
      \/ Forall2 (fun c item => emails c = snd item
                                /\ description c = lit "Emails from " ++ fst item
                                /\ keywords c = [])
                 out (filter big (Dict.items (group_by_domain msgs)))).
Proof.
  intros out.
  assert (map cluster_id out = map Z.of_nat (seq 0 (length out))) as Hids.
  { subst out. rewrite cluster_emails_spec.
    destruct ((len msgs <? min_cluster_size self) || negb (some_domain_reaches msgs));
      [reflexivity|].
    rewrite number_clusters_ids, number_clusters_length. apply map_ext. intros i; lia. }
  split; [exact Hids|]. split; [rewrite Hids; apply ids_from_zero_NoDup|]. split.
  - intros i j ci cj Hi Hj Hlt.
    assert (forall k c, nth_error out k = Some c -> cluster_id c = Z.of_nat k) as Hnth.
    { intros k c Hk.
      assert (nth_error (map cluster_id out) k = Some (cluster_id c)) as Hm
        by (rewrite nth_error_map, Hk; reflexivity).
      rewrite Hids, nth_error_map in Hm.
      assert (k < length out)%nat as Hlen by (apply nth_error_Some; congruence).
      rewrite nth_error_seq in Hm.
      destruct (Nat.ltb_spec k (length out)); [|lia].
      simpl in Hm. congruence. }
    rewrite (Hnth _ _ Hi), (Hnth _ _ Hj). lia.
  - subst out. rewrite cluster_emails_spec.
    destruct ((len msgs <? min_cluster_size self) || negb (some_domain_reaches msgs));
      [left; reflexivity | right].
    rewrite retained_items. apply number_clusters_Forall2.
Qed.

(** C2. For an input of at least [min_cluster_size] messages: when some sender
    domain occurs at least [min_cluster_size] times, the members of all
    returned clusters together are exactly the input messages whose sender
    domain occurs at least [min_cluster_size] times (as multisets), so groups
    below the threshold contribute no message; when no domain reaches the
    threshold, the result is the single cluster "All Messages (N)" whose
    members are all input messages in input order. *)
Theorem clustered_messages_reach_threshold (msgs : list EmailMessage) (num_clusters : Z) :
  min_cluster_size self <= len msgs ->
  let out := cluster_emails msgs num_clusters in
  (some_domain_reaches msgs = true ->
     Permutation (concat (map emails out))
                 (filter (fun e => reaches msgs (domain_of e)) msgs)
     /\ (forall c e, In c out -> In e (emails c) ->
           In e msgs /\ reaches msgs (domain_of e) = true))
  /\ (some_domain_reaches msgs = false ->
        out = [ {| cluster_id := 0;
                   name := lit "All Messages (" ++ str_of_nat (length msgs) ++ lit ")";
                   description := lit "All " ++ str_of_nat (length msgs)
                                  ++ lit " recent emails";
                   emails := msgs;
                   keywords := [] |} ]
        /\ concat (map emails out) = msgs).
Proof.
  intros Hlen out. subst out. rewrite cluster_emails_spec.
  apply Z.ltb_ge in Hlen. rewrite Hlen. simpl orb.
  split; intros Hr; rewrite Hr; simpl negb; cbv iota;
    [|split; [reflexivity | apply app_nil_r]].
  split.
  - rewrite number_clusters_emails, map_map. simpl snd.
    eapply Permutation_trans; [apply concat_groups_perm, kept_keys_NoDup|].
    erewrite filter_ext_in; [apply Permutation_refl|].
    intros e He. apply eq_true_iff_eq. rewrite existsb_key_In, kept_keys_In, domain_keys_In.
    split; [tauto|]. intros H; split; [exists e; tauto | exact H].
  - intros c e Hc He. apply kept_cluster_inv in Hc. destruct Hc as [k [Hk Hc]].
    rewrite Hc in He. apply group_of_In in He. destruct He as [He <-].
    apply kept_keys_In in Hk. tauto.
Qed.

(** C1 (as amended). Every input message belongs to at most one cluster of
    the output, and clusters hold input messages only.  A message belongs to
    exactly one cluster when the input is shorter than [min_cluster_size], or
    no sender domain reaches the threshold, or its own sender domain reaches
    it; otherwise it belongs to none. *)
Theorem message_in_at_most_one_cluster (msgs : list EmailMessage) (num_clusters : Z)
        (m : EmailMessage) :
  In m msgs ->
  let out := cluster_emails msgs num_clusters in
  length (clusters_containing m out)
  = (if (len msgs <? min_cluster_size self) || negb (some_domain_reaches msgs)
        || reaches msgs (domain_of m)
     then 1%nat else 0%nat)
  /\ (forall c e, In c out -> In e (emails c) -> In e msgs).
Proof.
  intros Hm out. subst out. rewrite cluster_emails_spec. unfold clusters_containing.
  destruct ((len msgs <? min_cluster_size self) || negb (some_domain_reaches msgs)) eqn:Hs.
  - simpl. apply mem_In in Hm. rewrite Hm. split; [reflexivity|].
    intros c e [<- | []] He; exact He.
  - simpl orb. split.
    + rewrite (number_clusters_count title (mem m)), filter_map_swap, length_map. simpl snd.
      erewrite filter_ext_in; [|intros k _; apply mem_group_of, Hm].
      rewrite count_key_NoDup by apply kept_keys_NoDup.
      replace (existsb (str_eqb (domain_of m)) (kept_keys msgs))
        with (reaches msgs (domain_of m)); [reflexivity|].
      apply eq_true_iff_eq. rewrite existsb_key_In, kept_keys_In, domain_keys_In.
      split; [|tauto]. intros H; split; [exists m; tauto | exact H].
    + intros c e Hc He. apply kept_cluster_inv in Hc. destruct Hc as [k [_ Hc]].
      rewrite Hc in He. apply group_of_In in He. tauto.
Qed.

(** C10. In an input of at least [min_cluster_size] messages, a message
    whose sender has no [@] gets the empty domain, so all such messages sit in
    the one dictionary entry of the empty domain; that entry is an output
    cluster exactly when it has at least [min_cluster_size] members. *)
Theorem senders_without_at_share_empty_domain (msgs : list EmailMessage) (num_clusters : Z)
        (m : EmailMessage) :
  min_cluster_size self <= len msgs ->
  In m msgs ->
  contains_char AT (sender m) = false ->
  let out := cluster_emails msgs num_clusters in
  let empty_group := group_of msgs [] in
  domain_of m = []
  /\ In m empty_group
  /\ Dict.getitem [] (group_by_domain msgs) = Some empty_group
  /\ (min_cluster_size self <= len empty_group ->
        exists c, In c out /\ emails c = empty_group
                  /\ description c = lit "Emails from " /\ keywords c = [])
  /\ ((exists c, In c out /\ emails c = empty_group) ->
        min_cluster_size self <= len empty_group).
Proof.
  intros Hlen Hm Hat out empty_group.
  assert (domain_of m = []) as Hd.
  { unfold domain_of, _extract_domain. rewrite re_search_domain_no_at by exact Hat.
    reflexivity. }
  assert (In m empty_group) as Hg by (apply group_of_In; tauto).
  assert (In [] (domain_keys msgs)) as Hk by (apply domain_keys_In; exists m; tauto).
  split; [exact Hd|]. split; [exact Hg|]. split.
  { rewrite group_by_domain_spec. apply (getitem_tabulate (group_of msgs)), Hk. }
  subst out. rewrite cluster_emails_spec.
  apply Z.ltb_ge in Hlen. rewrite Hlen. simpl orb. split.
  - intros Hbig.
    assert (In [] (kept_keys msgs)) as Hkept.
    { apply kept_keys_In; split; [exact Hk|]. apply Z.leb_le, Hbig. }
    assert (some_domain_reaches msgs = true) as Hs.
    { rewrite <- kept_keys_truthy. destruct (kept_keys msgs); [destruct Hkept | reflexivity]. }
    rewrite Hs. simpl negb. cbv iota.
    destruct (@number_clusters_member
                (map (fun k => (k, group_of msgs k)) (kept_keys msgs))
                ([], group_of msgs []) (in_map _ _ _ Hkept) 0) as [i Hi].
    exists (domain_cluster i ([], group_of msgs [])). split; [exact Hi|].
    unfold domain_cluster; cbn [emails description keywords fst snd].
    rewrite app_nil_r. repeat split.
  - intros [c [Hc He]]. destruct (some_domain_reaches msgs); simpl negb in Hc; cbv iota in Hc.
    + apply kept_cluster_inv in Hc. destruct Hc as [k [Hkept Hc]].
      rewrite He in Hc. fold empty_group in Hc. rewrite Hc in Hg.
      apply group_of_In in Hg. destruct Hg as [_ Hg]. rewrite Hd in Hg. subst k.
      apply kept_keys_In in Hkept. destruct Hkept as [_ Hr]. apply Z.leb_le in Hr. exact Hr.
    + destruct Hc as [<- | []]. simpl in He. rewrite <- He. apply Z.ltb_ge, Hlen.
Qed.

End ClusterEngine.

(** C7 on a two-message inbox with the default threshold. *)
Lemma few_messages_single_cluster_witness :
  len [sample_message "1" "a@x.com"; sample_message "2" "b@y.org"]
  < min_cluster_size default_clusterer
  /\ cluster_emails ascii_title default_clusterer
       [sample_message "1" "a@x.com"; sample_message "2" "b@y.org"] 5
     = [ {| cluster_id := 0;
            name := lit "All Messages (2)";
            description := lit "All 2 recent emails";
            emails := [sample_message "1" "a@x.com"; sample_message "2" "b@y.org"];
            keywords := [] |} ].
Proof.
  split; [vm_compute; reflexivity|].
  apply (@few_messages_single_cluster ascii_title default_clusterer
           [sample_message "1" "a@x.com"; sample_message "2" "b@y.org"] 5).
  vm_compute; reflexivity.
Defined.

(** C2 on three messages from [x.com] and one from [y.com]. *)
Lemma clustered_messages_reach_threshold_witness :
  min_cluster_size default_clusterer <= len inbox_x3_y1
  /\ Permutation
       (concat (map emails (cluster_emails ascii_title default_clusterer inbox_x3_y1 5)))
       (filter (fun e => reaches default_clusterer inbox_x3_y1 (domain_of e)) inbox_x3_y1).
Proof.
  assert (min_cluster_size default_clusterer <= len inbox_x3_y1) as H
    by (vm_compute; discriminate).
  split; [exact H|].
  exact (proj1 (proj1 (@clustered_messages_reach_threshold ascii_title default_clusterer
                         inbox_x3_y1 5 H) eq_refl)).
Defined.

(** C1 as stated fails: with three messages from [x.com] and one from
    [y.com], the [y.com] message is in no cluster of the output. *)
Lemma below_threshold_message_in_no_cluster :
  ~ (forall m, In m inbox_x3_y1 ->
       length (clusters_containing m
                 (cluster_emails ascii_title default_clusterer inbox_x3_y1 5)) = 1%nat).
Proof.
  intros H. specialize (H (sample_message "4" "d@y.com")).
  assert (In (sample_message "4" "d@y.com") inbox_x3_y1) as Hin
    by (do 3 right; left; reflexivity).
  apply H in Hin. vm_compute in Hin. discriminate.
Qed.

(** C1 (as amended) on the same inbox: the [y.com] message is in no cluster. *)
Lemma message_in_at_most_one_cluster_witness :
  In (sample_message "4" "d@y.com") inbox_x3_y1
  /\ length (clusters_containing (sample_message "4" "d@y.com")
               (cluster_emails ascii_title default_clusterer inbox_x3_y1 5)) = 0%nat.
Proof.
  assert (In (sample_message "4" "d@y.com") inbox_x3_y1) as Hin
    by (do 3 right; left; reflexivity).
  split; [exact Hin|].
  exact (proj1 (@message_in_at_most_one_cluster ascii_title default_clusterer
                  inbox_x3_y1 5 _ Hin)).
Defined.

(** C10 on three senders without [@] and one with. *)
Lemma senders_without_at_share_empty_domain_witness :
  min_cluster_size default_clusterer <= len inbox_no_at
  /\ In (sample_message "1" "MAILER-DAEMON") inbox_no_at
  /\ contains_char AT (sender (sample_message "1" "MAILER-DAEMON")) = false
  /\ domain_of (sample_message "1" "MAILER-DAEMON") = []
  /\ exists c, In c (cluster_emails ascii_title default_clusterer inbox_no_at 5)
               /\ emails c = group_of inbox_no_at []
               /\ description c = lit "Emails from " /\ keywords c = [].
Proof.
  assert (min_cluster_size default_clusterer <= len inbox_no_at) as H
    by (vm_compute; discriminate).
  assert (In (sample_message "1" "MAILER-DAEMON") inbox_no_at) as Hin
    by (left; reflexivity).
  assert (min_cluster_size default_clusterer <= len (group_of inbox_no_at [])) as Hbig
    by (vm_compute; discriminate).
  split; [exact H|]. split; [exact Hin|]. split; [reflexivity|].
  destruct (@senders_without_at_share_empty_domain ascii_title default_clusterer
              inbox_no_at 5 _ H Hin eq_refl) as [Hd [_ [_ [Hex _]]]].
  split; [exact Hd | exact (Hex Hbig)].
Defined.

(** ** The Cluster Mutator *)

Lemma find_cluster_Some (cid : Z) (cs : list EmailCluster) (target : EmailCluster) :
  find_cluster cid cs = Some target -> In target cs /\ cluster_id target = cid.
Proof.
  unfold find_cluster. intros H. apply find_some in H.
  destruct H as [Hin E]. apply Z.eqb_eq in E. tauto.
Qed.

Lemma find_cluster_absent (cid : Z) (cs : list EmailCluster) :
  (forall c, In c cs -> cluster_id c <> cid) -> find_cluster cid cs = None.
Proof.
  unfold find_cluster. induction cs as [|c cs IH]; intros H; simpl; [reflexivity|].
  destruct (cluster_id c =? cid) eqn:E.
  - apply Z.eqb_eq in E. exfalso. apply (H c); [left; reflexivity | exact E].
  - apply IH. intros x Hx. apply H; right; exact Hx.
Qed.

Lemma remaining_clusters_In (cid : Z) (cs : list EmailCluster) (c : EmailCluster) :
  In c (filter (fun c => negb (cluster_id c =? cid)) cs) <-> In c cs /\ cluster_id c <> cid.
Proof. rewrite filter_In, negb_true_iff, Z.eqb_neq. reflexivity. Qed.

Lemma remaining_clusters_all (cid : Z) (cs : list EmailCluster) :
  (forall c, In c cs -> cluster_id c <> cid) ->
  filter (fun c => negb (cluster_id c =? cid)) cs = cs.
Proof.
  induction cs as [|c cs IH]; intros H; simpl; [reflexivity|].
  destruct (cluster_id c =? cid) eqn:E; simpl.
  - apply Z.eqb_eq in E. exfalso. apply (H c); [left; reflexivity | exact E].
  - f_equal. apply IH. intros x Hx. apply H; right; exact Hx.
Qed.

(** With distinct ids, removing by id takes out the target and nothing else. *)
Lemma remaining_clusters_unique (cid : Z) (cs : list EmailCluster) (target : EmailCluster) :
  NoDup (map cluster_id cs) ->
  find_cluster cid cs = Some target ->
  exists l1 l2, cs = l1 ++ target :: l2
                /\ filter (fun c => negb (cluster_id c =? cid)) cs = l1 ++ l2.
Proof.
  unfold find_cluster. induction cs as [|c cs IH]; simpl; [discriminate|].
  intros Hnd Hf. inversion Hnd as [|y l Hnotin Hnd']; subst.
  destruct (cluster_id c =? cid) eqn:E; simpl.
  - injection Hf as <-. apply Z.eqb_eq in E. exists [], cs. split; [reflexivity|].
    simpl. apply remaining_clusters_all. intros x Hx Heq. apply Hnotin.
    rewrite E, <- Heq. apply in_map, Hx.
  - destruct (IH Hnd' Hf) as [l1 [l2 [-> Hr]]]. exists (c :: l1), l2.
    split; [reflexivity|]. simpl. rewrite Hr. reflexivity.
Qed.

Section ClusterMutator.

Variable Conn : Type.
Variable imap_store : str -> str -> str -> IO Conn unit.
Variable imap_expunge : IO Conn unit.

Local Abbreviation archive_emails := (archive_emails imap_store imap_expunge).
Local Abbreviation archive_cluster := (archive_cluster imap_store imap_expunge).

(** The handler answers 200 exactly on the path that found the client and the
    cluster and whose gateway call returned. *)
Lemma archive_cluster_200 (st st' : AppState Conn) (cid : Z) (message : str) :
  archive_cluster (Return cid) st = (mkResponse 200 (Success message), st') ->
  exists client client' target,
    current_gmail_client st = Some client
    /\ find_cluster cid (current_clusters st) = Some target
    /\ archive_emails client (map uid (emails target)) = (Return tt, client')
    /\ message = lit "Archived " ++ str_of_nat (length (emails target))
                 ++ lit " emails from '" ++ name target ++ lit "'"
    /\ st' = mkAppState (filter (fun c => negb (cluster_id c =? cid)) (current_clusters st))
                        (Some client').
Proof.
  unfold archive_cluster. intros H.
  destruct (current_gmail_client st) as [client|]; [|discriminate].
  destruct (find_cluster cid (current_clusters st)) as [target|]; [|discriminate].
  destruct (archive_emails client (map uid (emails target))) as [[[]|e] client'] eqn:Ea;
    [|discriminate].
  injection H as <- <-. exists client, client', target.
  rewrite length_map. repeat split. exact Ea.
Qed.

(** C5. When [archive_cluster] succeeds for a cluster id, the gateway's
    [archive_emails] was run on exactly the uids of the members of the cluster
    found under that id, in member order; the active set loses the clusters
    with that id and keeps every other cluster unchanged and in place (with
    distinct ids: exactly the target is taken out); and archiving the same id
    again answers 404 "Cluster not found" without changing anything. *)
Theorem archive_cluster_success (st st' : AppState Conn) (cid : Z) (message : str) :
  archive_cluster (Return cid) st = (mkResponse 200 (Success message), st') ->
  exists client client' target,
    current_gmail_client st = Some client
    /\ find_cluster cid (current_clusters st) = Some target
    /\ In target (current_clusters st) /\ cluster_id target = cid
    /\ archive_emails client (map uid (emails target)) = (Return tt, client')
    /\ current_gmail_client st' = Some client'
    /\ current_clusters st'
       = filter (fun c => negb (cluster_id c =? cid)) (current_clusters st)
    /\ (forall c, In c (current_clusters st')
                  <-> In c (current_clusters st) /\ cluster_id c <> cid)
    /\ (NoDup (map cluster_id (current_clusters st)) ->
          exists l1 l2, current_clusters st = l1 ++ target :: l2
                        /\ current_clusters st' = l1 ++ l2)
    /\ archive_cluster (Return cid) st'
       = (mkResponse 404 (Error (lit "Cluster not found")), st').
Proof.
  intros H. apply archive_cluster_200 in H.
  destruct H as [client [client' [target [Hc [Hf [Ha [_ ->]]]]]]].
  exists client, client', target.
  destruct (find_cluster_Some _ _ Hf) as [Hin Hid].
  repeat (split; [first [assumption | reflexivity]|]). simpl. split; [|split].
  - intros c. apply remaining_clusters_In.
  - intros Hnd. apply remaining_clusters_unique; assumption.
  - unfold archive_cluster. simpl.
    rewrite find_cluster_absent; [reflexivity|].
    intros c Hc'. apply remaining_clusters_In in Hc'. tauto.
Qed.

(** Conversely, the handler does succeed whenever a client is present, the id
    is found and the gateway call returns. *)
Lemma archive_cluster_succeeds (st : AppState Conn) (cid : Z)
      (client client' : GmailClient Conn) (target : EmailCluster) :
  current_gmail_client st = Some client ->
  find_cluster cid (current_clusters st) = Some target ->
  archive_emails client (map uid (emails target)) = (Return tt, client') ->
  exists message st', archive_cluster (Return cid) st = (mkResponse 200 (Success message), st').
Proof.
  intros Hc Hf Ha. unfold archive_cluster. rewrite Hc, Hf, Ha. eauto.
Qed.

(** C6 (as amended). For a cluster id that no active cluster has, the handler
    fails and leaves the whole state as it was, so no cluster is removed or
    changed and the gateway is not called: with a gateway client present the
    answer is 404 "Cluster not found", without one it is 400 "Not connected
    to Gmail". *)
Theorem archive_unknown_cluster (st : AppState Conn) (cid : Z) :
  (forall c, In c (current_clusters st) -> cluster_id c <> cid) ->
  archive_cluster (Return cid) st
  = (match current_gmail_client st with
     | Some _ => mkResponse 404 (Error (lit "Cluster not found"))
     | None => mkResponse 400 (Error (lit "Not connected to Gmail"))
     end, st).
Proof.
  intros H. unfold archive_cluster.
  destruct (current_gmail_client st); [|reflexivity].
  rewrite find_cluster_absent by exact H. reflexivity.
Qed.

End ClusterMutator.

(** C5 on the recording connection: archiving cluster 0 sends the STORE
    commands for the uids 1, 2, 3 and nothing else, and empties the active
    set. *)
Lemma archive_cluster_success_witness :
  exists message st',
    mock_archive_cluster (Return 0) (mkAppState clusters_x3_y1 (Some mock_client))
    = (mkResponse 200 (Success message), st')
    /\ current_clusters st' = []
    /\ option_map (@connection MockConn) (current_gmail_client st')
       = Some (Some [ STORE (lit "1") (lit "+X-GM-LABELS") (lit "\Important");
                      STORE (lit "1") (lit "+FLAGS") (lit "\Deleted");
                      STORE (lit "2") (lit "+X-GM-LABELS") (lit "\Important");
                      STORE (lit "2") (lit "+FLAGS") (lit "\Deleted");
                      STORE (lit "3") (lit "+X-GM-LABELS") (lit "\Important");
                      STORE (lit "3") (lit "+FLAGS") (lit "\Deleted");
                      EXPUNGE ])
    /\ mock_archive_cluster (Return 0) st'
       = (mkResponse 404 (Error (lit "Cluster not found")), st').
Proof.
  destruct (mock_archive_cluster (Return 0) (mkAppState clusters_x3_y1 (Some mock_client)))
    as [r st'] eqn:E.
  vm_compute in E. injection E as <- <-.
  eexists; eexists. split; [reflexivity|]. split; [reflexivity|]. split; [reflexivity|].
  destruct (@archive_cluster_success MockConn mock_store mock_expunge
              (mkAppState clusters_x3_y1 (Some mock_client)) _ 0 _ eq_refl)
    as [client [client' [target [_ [_ [_ [_ [_ [_ [_ [_ [_ H]]]]]]]]]]]].
  exact H.
Defined.

(** C6 as stated fails: after a demo login no gateway client exists, and an
    unknown cluster id is answered with 400, not with 404. *)
Lemma unknown_cluster_without_client :
  let st := mkAppState clusters_x3_y1 (@None (GmailClient MockConn)) in
  (forall c, In c (current_clusters st) -> cluster_id c <> 7)
  /\ mock_archive_cluster (Return 7) st
     = (mkResponse 400 (Error (lit "Not connected to Gmail")), st)
  /\ status (fst (mock_archive_cluster (Return 7) st)) <> 404.
Proof.
  split; [|split].
  - intros c Hc. vm_compute in Hc. destruct Hc as [<- | []]. discriminate.
  - reflexivity.
  - vm_compute. discriminate.
Qed.

(** C6 (as amended) on a connected client and an unknown id. *)
Lemma archive_unknown_cluster_witness :
  (forall c, In c clusters_x3_y1 -> cluster_id c <> 7)
  /\ mock_archive_cluster (Return 7) (mkAppState clusters_x3_y1 (Some mock_client))
     = (mkResponse 404 (Error (lit "Cluster not found")),
        mkAppState clusters_x3_y1 (Some mock_client)).
Proof.
  assert (forall c, In c clusters_x3_y1 -> cluster_id c <> 7) as H.
  { intros c Hc. vm_compute in Hc. destruct Hc as [<- | []]. discriminate. }
  split; [exact H|].
  exact (@archive_unknown_cluster MockConn mock_store mock_expunge
           (mkAppState clusters_x3_y1 (Some mock_client)) 7 H).
Defined.

(** ** The Mailbox Gateway: which messages are listed *)

(** For a positive limit the selection is the last [count] message numbers,
    newest first, and all of them when the mailbox holds fewer. *)
Lemma listRecent_positive_limit (message_list : list bytes) (count : Z) :
  0 < count ->
  listRecent message_list count
  = rev (skipn (length message_list - Z.to_nat count) message_list)
  /\ len (listRecent message_list count) = Z.min count (len message_list).
Proof.
  intros Hpos. unfold listRecent, recent_messages, slice_from, len.
  rewrite length_rev.
  destruct (count <? Z.of_nat (length message_list)) eqn:E.
  - apply Z.ltb_lt in E.
    replace (- count <? 0) with true by (symmetry; apply Z.ltb_lt; lia).
    replace (Z.to_nat (Z.max 0 (- count + Z.of_nat (length message_list))))
      with (length message_list - Z.to_nat count)%nat by lia.
    split; [reflexivity|]. rewrite length_skipn. lia.
  - apply Z.ltb_ge in E.
    replace (length message_list - Z.to_nat count)%nat with 0%nat by lia.
    split; [reflexivity | lia].
Qed.

(** C9 (where the code departs from it). With limit 0 the slice
    [message_list[-0:]] is the whole list, so every message number of the
    mailbox is listed, newest first, instead of none. *)
Theorem listRecent_limit_zero :
  (forall message_list : list bytes, listRecent message_list 0 = rev message_list)
  /\ listRecent [lit "1"; lit "2"; lit "3"] 0 = [lit "3"; lit "2"; lit "1"]
  /\ ~ (len (listRecent [lit "1"; lit "2"; lit "3"] 0) <= 0).
Proof.
  split; [|split].
  - intros l. unfold listRecent, recent_messages, slice_from.
    destruct (0 <? len l); [|reflexivity].
    change (- 0 <? 0) with false. cbv iota.
    rewrite Z.min_l by (unfold len; lia). reflexivity.
  - reflexivity.
  - vm_compute. intros H; apply H; reflexivity.
Qed.

(** A negative limit drops the oldest [-count] message numbers and lists the
    rest. *)
Lemma listRecent_negative_limit (message_list : list bytes) (count : Z) :
  count < 0 ->
  listRecent message_list count = rev (skipn (Z.to_nat (- count)) message_list).
Proof.
  intros Hneg. unfold listRecent, recent_messages, slice_from, len.
  replace (count <? Z.of_nat (length message_list)) with true
    by (symmetry; apply Z.ltb_lt; lia).
  replace (- count <? 0) with false by (symmetry; apply Z.ltb_ge; lia).
  f_equal. destruct (Z.le_gt_cases (- count) (Z.of_nat (length message_list))) as [H | H].
  - rewrite Z.min_l by exact H. reflexivity.
  - rewrite Z.min_r by lia. rewrite Nat2Z.id.
    rewrite !skipn_all2; [reflexivity | lia | lia].
Qed.

(** ** The Message Normalizer: header decoding *)

Section HeaderDecoding.

Variable decode_header : str -> outcome (list (header_part * option str)).
Variable bytes_decode_ignore : bytes -> str -> outcome str.

Local Abbreviation decode_parts := (decode_parts bytes_decode_ignore).
Local Abbreviation _decode_header := (_decode_header decode_header bytes_decode_ignore).

(** [_decode_header] has no handler of its own: it returns whenever the two
    library calls return. *)
Lemma decode_parts_returns (parts : list (header_part * option str)) :
  (forall b enc, exists s, bytes_decode_ignore b enc = Return s) ->
  forall acc, exists s, decode_parts parts acc = Return s.
Proof.
  intros Hb. induction parts as [|[[b|t] enc] parts IH]; intros acc; simpl.
  - eauto.
  - destruct (Hb b (encoding_or_utf8 enc)) as [s ->]. apply IH.
  - apply IH.
Qed.

Lemma _decode_header_returns (header : str) :
  (forall h, exists parts, decode_header h = Return parts) ->
  (forall b enc, exists s, bytes_decode_ignore b enc = Return s) ->
  exists s, _decode_header header = Return s.
Proof.
  intros Hd Hb. unfold _decode_header. destruct (negb (truthy header)); [eauto|].
  destruct (Hd header) as [parts ->]. apply decode_parts_returns, Hb.
Qed.

(** An exception of [email.header.decode_header] leaves [_decode_header]
    unhandled. *)
Lemma _decode_header_parse_error (header : str) (e : exn) :
  truthy header = true ->
  decode_header header = Raise e ->
  _decode_header header = Raise e.
Proof. intros Hh Hd. unfold _decode_header. rewrite Hh, Hd. reflexivity. Qed.

(** C4 (where the code departs from it). When the header is one encoded word
    whose charset the codec lookup of [bytes.decode] rejects, the exception
    leaves [_decode_header]: no text is returned. *)
Theorem decode_header_unknown_charset_raises (header : str) (b : bytes) (charset : str) (e : exn) :
  truthy header = true ->
  truthy charset = true ->
  decode_header header = Return [(PartBytes b, Some charset)] ->
  bytes_decode_ignore b charset = Raise e ->
  _decode_header header = Raise e.
Proof.
  intros Hh Hc Hd Hb. unfold _decode_header. rewrite Hh, Hd. simpl.
  rewrite Hc, Hb. reflexivity.
Qed.

End HeaderDecoding.

(** C4 on the header [=?x-unknown?q?abc?=]. *)
Lemma decode_header_unknown_charset_raises_witness :
  truthy sample_header = true
  /\ truthy (lit "x-unknown") = true
  /\ sample_decode_header sample_header = Return [(PartBytes (lit "abc"), Some (lit "x-unknown"))]
  /\ sample_bytes_decode (lit "abc") (lit "x-unknown")
     = Raise (Exception "LookupError" (lit "unknown encoding: x-unknown"))
  /\ _decode_header sample_decode_header sample_bytes_decode sample_header
     = Raise (Exception "LookupError" (lit "unknown encoding: x-unknown")).
Proof.
  repeat (split; [reflexivity|]).
  apply (@decode_header_unknown_charset_raises sample_decode_header sample_bytes_decode
           sample_header (lit "abc") (lit "x-unknown")); reflexivity.
Defined.

(** ** The Cluster Engine: order, shape and size of the output *)

Lemma add_key_cases (d : str) (ks : list str) :
  add_key d ks = if existsb (str_eqb d) ks then ks else ks ++ [d].
Proof.
  induction ks as [|k ks IH]; simpl; [reflexivity|].
  rewrite (str_eqb_sym d k). destruct (str_eqb k d); simpl; [reflexivity|].
  rewrite IH. destruct (existsb (str_eqb d) ks); reflexivity.
Qed.

Lemma filter_twice {A} (f g : A -> bool) (l : list A) :
  filter f (filter g l) = filter (fun x => g x && f x) l.
Proof.
  induction l as [|a l IH]; simpl; [reflexivity|].
  destruct (g a); simpl; [destruct (f a)|]; rewrite IH; reflexivity.
Qed.

Lemma keys_from_first_occurrences (ds acc : list str) :
  fold_left (fun ks d => add_key d ks) ds acc
  = acc ++ filter (fun d => negb (existsb (str_eqb d) acc)) (first_occurrences ds).
Proof.
  revert acc. induction ds as [|x ds IH]; intros acc; simpl.
  - rewrite app_nil_r; reflexivity.
  - rewrite IH, add_key_cases. destruct (existsb (str_eqb x) acc) eqn:Ex; simpl.
    + f_equal. rewrite filter_twice. apply filter_ext_in. intros k _.
      destruct (existsb (str_eqb k) acc) eqn:Ek; simpl;
        [rewrite andb_false_r; reflexivity|].
      rewrite andb_true_r.
      destruct (str_eqb x k) eqn:E; [|reflexivity].
      apply str_eqb_eq in E; subst. congruence.
    + rewrite <- app_assoc. simpl. do 2 f_equal.
      rewrite filter_twice. apply filter_ext. intros k.
      rewrite existsb_app. simpl. rewrite orb_false_r, negb_orb, (str_eqb_sym k x).
      apply andb_comm.
Qed.

Lemma domain_keys_first_occurrences (msgs : list EmailMessage) :
  domain_keys msgs = first_occurrences (map domain_of msgs).
Proof.
  unfold domain_keys.
  replace (fold_left (fun ks e => add_key (domain_of e) ks) msgs [])
    with (fold_left (fun ks d => add_key d ks) (map domain_of msgs) []).
  - rewrite keys_from_first_occurrences. simpl.
    apply forallb_filter_id, forallb_forall. reflexivity.
  - generalize (@nil str). induction msgs as [|e msgs IH]; intros acc; simpl;
      [reflexivity | apply IH].
Qed.

Lemma first_occurrences_length (l : list str) :
  (length (first_occurrences l) <= length l)%nat.
Proof.
  induction l as [|d l IH]; simpl; [lia|].
  pose proof (filter_length_le (fun k => negb (str_eqb d k)) (first_occurrences l)). lia.
Qed.

Lemma lit_prefix_inj (p a b : str) : p ++ a = p ++ b -> a = b.
Proof. apply app_inv_head. Qed.

Section ClusterEngineShape.

Variable title : str -> str.
Variable self : EmailClusterer.

Local Abbreviation reaches := (reaches self).
Local Abbreviation some_domain_reaches := (some_domain_reaches self).
Local Abbreviation kept_keys := (kept_keys self).
Local Abbreviation number_clusters := (number_clusters title).
Local Abbreviation cluster_emails := (cluster_emails title self).

Lemma number_clusters_descriptions (items : list (str * list EmailMessage)) :
  forall n, map description (number_clusters n items)
            = map (fun item => lit "Emails from " ++ fst item) items.
Proof. induction items as [|it items IH]; intros n; simpl; [|rewrite IH]; reflexivity. Qed.

Lemma number_clusters_names (items : list (str * list EmailMessage)) :
  forall n c, In c (number_clusters n items) ->
    exists label, name c = label ++ lit " (" ++ str_of_nat (length (emails c)) ++ lit ")".
Proof.
  induction items as [|it items IH]; intros n c; simpl; [intros []|].
  intros [<- | H]; [|apply (IH _ _ H)].
  exists (clean title (fst it)). reflexivity.
Qed.

(** On the domain-grouping path the output is the numbered list of the
    groups of the kept keys. *)
Lemma domain_path (msgs : list EmailMessage) (num_clusters : Z) :
  min_cluster_size self <= len msgs ->
  some_domain_reaches msgs = true ->
  cluster_emails msgs num_clusters
  = number_clusters 0 (map (fun k => (k, group_of msgs k)) (kept_keys msgs)).
Proof.
  intros Hlen Hs. rewrite cluster_emails_spec. apply Z.ltb_ge in Hlen.
  rewrite Hlen, Hs. reflexivity.
Qed.

(** Clusters come in the order in which their sender domain first occurs in
    the input, and the members of a cluster are the input messages of that
    domain in input order. *)
Theorem clusters_in_first_occurrence_order (msgs : list EmailMessage) (num_clusters : Z) :
  min_cluster_size self <= len msgs ->
  some_domain_reaches msgs = true ->
  let out := cluster_emails msgs num_clusters in
  let kept := filter (reaches msgs) (first_occurrences (map domain_of msgs)) in
  map description out = map (fun d => lit "Emails from " ++ d) kept
  /\ map emails out
     = map (fun d => filter (fun e => str_eqb (domain_of e) d) msgs) kept.
Proof.
  intros Hlen Hs out kept. subst out kept.
  rewrite domain_path by assumption.
  rewrite number_clusters_descriptions, number_clusters_emails, !map_map.
  unfold kept_keys. rewrite domain_keys_first_occurrences. split; reflexivity.
Qed.

(** On the domain-grouping path every cluster holds exactly the input
    messages of one sender domain, has at least [min_cluster_size] members
    and at least one, and no two clusters share a domain. *)
Theorem domain_clusters_are_homogeneous (msgs : list EmailMessage) (num_clusters : Z) :
  min_cluster_size self <= len msgs ->
  some_domain_reaches msgs = true ->
  let out := cluster_emails msgs num_clusters in
  (forall c, In c out ->
     exists d, description c = lit "Emails from " ++ d
               /\ (forall e, In e (emails c) <-> In e msgs /\ domain_of e = d)
               /\ min_cluster_size self <= len (emails c)
               /\ emails c <> []
               /\ keywords c = [])
  /\ NoDup (map description out).
Proof.
  intros Hlen Hs out. subst out. rewrite domain_path by assumption. split.
  - intros c Hc. apply number_clusters_In in Hc. destruct Hc as [i [item [Hin ->]]].
    apply in_map_iff in Hin. destruct Hin as [k [<- Hk]].
    apply kept_keys_In in Hk. destruct Hk as [Hk Hr].
    exists k. cbn [description emails keywords domain_cluster fst snd].
    split; [reflexivity|]. split; [intros e; apply group_of_In|].
    split; [apply Z.leb_le, Hr|]. split; [|reflexivity].
    intros Hnil. apply group_of_nil_iff in Hnil. contradiction.
  - rewrite number_clusters_descriptions, map_map. cbn [fst].
    apply Finite.Injective_map_NoDup; [|apply kept_keys_NoDup].
    intros a b H. apply (lit_prefix_inj _ _ _ H).
Qed.

(** Every returned cluster carries the number of its members in its name:
    the name ends in " (N)" with N the member count. *)
Theorem cluster_name_carries_member_count (msgs : list EmailMessage) (num_clusters : Z)
        (c : EmailCluster) :
  In c (cluster_emails msgs num_clusters) ->
  exists label, name c = label ++ lit " (" ++ str_of_nat (length (emails c)) ++ lit ")".
Proof.
  rewrite cluster_emails_spec.
  destruct ((len msgs <? min_cluster_size self) || negb (some_domain_reaches msgs)).
  - intros [<- | []]. exists (lit "All Messages"). reflexivity.
  - apply number_clusters_names.
Qed.

(** The output is never empty, it has at most one cluster per input message
    (one for the empty input), and the clusters together never hold more
    members than the input has messages. *)
Theorem cluster_output_size (msgs : list EmailMessage) (num_clusters : Z) :
  let out := cluster_emails msgs num_clusters in
  (1 <= length out)%nat
  /\ (length out <= Nat.max 1 (length msgs))%nat
  /\ (length (concat (map emails out)) <= length msgs)%nat.
Proof.
  intros out. subst out. rewrite cluster_emails_spec.
  destruct ((len msgs <? min_cluster_size self) || negb (some_domain_reaches msgs)) eqn:E.
  - change (concat (map emails [_create_single_cluster msgs])) with (msgs ++ []).
    rewrite app_nil_r. cbn [length]. lia.
  - apply orb_false_iff in E. destruct E as [_ E]. apply negb_false_iff in E.
    rewrite number_clusters_length, length_map.
    assert (length (kept_keys msgs) <= length msgs)%nat as Hle.
    { unfold kept_keys. rewrite domain_keys_first_occurrences.
      pose proof (filter_length_le (reaches msgs) (first_occurrences (map domain_of msgs))).
      pose proof (first_occurrences_length (map domain_of msgs)).
      rewrite length_map in *. lia. }
    assert (1 <= length (kept_keys msgs))%nat as Hge.
    { rewrite <- kept_keys_truthy in E. destruct (kept_keys msgs); [discriminate | simpl; lia]. }
    split; [exact Hge|]. split; [lia|].
    rewrite number_clusters_emails, map_map. cbn [snd].
    change (fun x : str => group_of msgs x) with (group_of msgs).
    rewrite (Permutation_length (concat_groups_perm msgs (kept_keys_NoDup self msgs))).
    apply filter_length_le.
Qed.

End ClusterEngineShape.

(** Members, order and size on three messages from [x.com] and one from
    [y.com]. *)
Lemma clusters_in_first_occurrence_order_witness :
  min_cluster_size default_clusterer <= len inbox_x3_y1
  /\ some_domain_reaches default_clusterer inbox_x3_y1 = true
  /\ map description clusters_x3_y1 = [lit "Emails from x.com"]
  /\ map emails clusters_x3_y1
     = [[sample_message "1" "a@x.com"; sample_message "2" "Bob <b@x.com>";
         sample_message "3" "c@x.com"]].
Proof.
  assert (min_cluster_size default_clusterer <= len inbox_x3_y1) as H
    by (vm_compute; discriminate).
  split; [exact H|]. split; [reflexivity|].
  exact (@clusters_in_first_occurrence_order ascii_title default_clusterer
           inbox_x3_y1 5 H eq_refl).
Defined.

Lemma domain_clusters_are_homogeneous_witness :
  min_cluster_size default_clusterer <= len inbox_x3_y1
  /\ some_domain_reaches default_clusterer inbox_x3_y1 = true
  /\ NoDup (map description clusters_x3_y1).
Proof.
  assert (min_cluster_size default_clusterer <= len inbox_x3_y1) as H
    by (vm_compute; discriminate).
  split; [exact H|]. split; [reflexivity|].
  exact (proj2 (@domain_clusters_are_homogeneous ascii_title default_clusterer
                  inbox_x3_y1 5 H eq_refl)).
Defined.

Lemma cluster_name_carries_member_count_witness :
  exists c, In c clusters_x3_y1
            /\ exists label, name c = label ++ lit " (" ++ str_of_nat (length (emails c))
                                      ++ lit ")".
Proof.
  destruct clusters_x3_y1 as [|c rest] eqn:E; [vm_compute in E; discriminate|].
  assert (In c clusters_x3_y1) as Hin by (rewrite E; left; reflexivity).
  exists c. split; [rewrite <- E; exact Hin|].
  exact (@cluster_name_carries_member_count ascii_title default_clusterer
           inbox_x3_y1 5 c Hin).
Defined.

(** ** [_extract_domain]: the leftmost match of the pattern *)

Lemma domain_run_spec (t : str) :
  forallb domain_char (domain_run t) = true
  /\ exists post, t = domain_run t ++ post
                  /\ forall c post', post = c :: post' -> domain_char c = false.
Proof.
  induction t as [|x t [IHa [post [IHb IHc]]]]; simpl.
  - split; [reflexivity|]. exists []. split; [reflexivity | discriminate].
  - unfold domain_char at 1. destruct (N.eqb x GT || is_space x) eqn:E; simpl.
    + split; [reflexivity|]. exists (x :: t). split; [reflexivity|].
      intros c post' H. injection H as <- <-. unfold domain_char. rewrite E. reflexivity.
    + unfold domain_char at 1. rewrite E. simpl. split; [exact IHa|].
      exists post. split; [f_equal; exact IHb | exact IHc].
Qed.

Lemma domain_run_nil (c : char) (t : str) :
  domain_run (c :: t) = [] -> domain_char c = false.
Proof.
  simpl. unfold domain_char. destruct (N.eqb c GT || is_space c); [reflexivity | discriminate].
Qed.

Lemma truthy_false {A} (l : list A) : truthy l = false -> l = [].
Proof. destruct l; [reflexivity | discriminate]. Qed.

Lemma re_search_domain_spec (s : str) :
  match re_search_domain s with
  | Some d =>
      d <> [] /\ forallb domain_char d = true
      /\ exists pre post,
           s = pre ++ AT :: d ++ post
           /\ (forall c post', post = c :: post' -> domain_char c = false)
           /\ (forall p1 c p2, pre ++ [AT] = p1 ++ AT :: c :: p2 -> domain_char c = false)
  | None => forall pre c post, s = pre ++ AT :: c :: post -> domain_char c = false
  end.
Proof.
  induction s as [|x t IH]; cbn [re_search_domain].
  - intros [|y pre] c post H; discriminate.
  - destruct (N.eqb x AT && truthy (domain_run t)) eqn:E.
    + apply andb_true_iff in E. destruct E as [Ex Et]. apply N.eqb_eq in Ex. subst x.
      destruct (domain_run_spec t) as [Ha [post [Hb Hc]]].
      split; [intros Hn; rewrite Hn in Et; discriminate|]. split; [exact Ha|].
      exists [], post. split; [simpl; f_equal; exact Hb|]. split; [exact Hc|].
      intros [|y [|z p1]] c p2 H; discriminate.
    + assert (x = AT -> forall c t', t = c :: t' -> domain_char c = false) as Hhead.
      { intros -> c t' ->. rewrite N.eqb_refl in E. simpl in E.
        apply truthy_false in E. apply (domain_run_nil _ _ E). }
      destruct (re_search_domain t) as [d|].
      * destruct IH as [Hn [Ha [pre [post [Hs [Hc Hl]]]]]].
        split; [exact Hn|]. split; [exact Ha|].
        exists (x :: pre), post. split; [simpl; f_equal; exact Hs|]. split; [exact Hc|].
        intros [|y p1] c p2 H; simpl in H; injection H as Hx Hp.
        -- apply (Hhead Hx c (p2 ++ d ++ post)).
           rewrite Hs. change (AT :: d ++ post) with ([AT] ++ d ++ post).
           rewrite app_assoc, Hp. reflexivity.
        -- apply (Hl _ _ _ Hp).
      * intros [|y pre] c post H; simpl in H; injection H as Hx Hp.
        -- apply (Hhead Hx c post Hp).
        -- apply (IH _ _ _ Hp).
Qed.

(** The extracted domain holds no [>] and no white space.  When it is not
    empty, it sits in the sender right after an [@], it is followed by the end
    of the sender or by a [>] or white space, and no earlier [@] is followed
    by a domain character.  When it is empty, no [@] of the sender is followed
    by a domain character. *)
Theorem extract_domain_leftmost_match (s : str) :
  forallb domain_char (_extract_domain s) = true
  /\ (_extract_domain s <> [] ->
        exists pre post,
          s = pre ++ AT :: _extract_domain s ++ post
          /\ (forall c post', post = c :: post' -> domain_char c = false)
          /\ (forall p1 c p2, pre ++ [AT] = p1 ++ AT :: c :: p2 -> domain_char c = false))
  /\ (_extract_domain s = [] ->
        forall pre c post, s = pre ++ AT :: c :: post -> domain_char c = false).
Proof.
  unfold _extract_domain. pose proof (re_search_domain_spec s) as H.
  destruct (re_search_domain s) as [d|].
  - destruct H as [Hn [Ha Hex]]. split; [exact Ha|]. split; [intros _; exact Hex|].
    intros Hd; contradiction.
  - split; [reflexivity|]. split; [intros Hn; contradiction Hn; reflexivity|].
    intros _; exact H.
Qed.

(** ** [_generate_cluster_info] *)

Lemma lit_head_neq (a b : ascii) (s t : string) (x y : str) :
  N_of_ascii a <> N_of_ascii b -> lit (String a s) ++ x <> lit (String b t) ++ y.
Proof. unfold lit. simpl. intros H E. injection E as E _. contradiction. Qed.

(** The last branch of [_generate_cluster_info] is never taken: its
    description "Cluster of N emails" is returned for no input. *)
Theorem generate_cluster_info_never_uncategorized
        (title lower : str -> str) (keywords : list str) (domain : str) (count : Z) :
  snd (_generate_cluster_info title lower keywords domain count)
  <> lit "Cluster of " ++ str_of_int count ++ lit " emails".
Proof.
  unfold _generate_cluster_info.
  destruct keywords as [|k keywords], domain as [|c domain]; cbn [truthy negb andb];
    repeat match goal with
           | |- context [if ?b then _ else _] => destruct b
           end;
    cbn [snd];
    try (apply lit_head_neq; intros E; vm_compute in E; discriminate).
  intros E. apply app_inv_head in E. apply app_inv_head in E.
  vm_compute in E. discriminate.
Qed.

(** ** The Message Normalizer: body preview *)

Lemma lstrip_suffix (s : str) : exists spaces, s = spaces ++ lstrip s.
Proof.
  induction s as [|c t [sp IH]]; simpl.
  - exists []; reflexivity.
  - destruct (is_space c).
    + exists (c :: sp). simpl. f_equal. exact IH.
    + exists []. reflexivity.
Qed.

Lemma lstrip_head (s : str) (c : char) (t : str) :
  lstrip s = c :: t -> is_space c = false.
Proof.
  induction s as [|x s IH]; simpl; [discriminate|].
  destruct (is_space x) eqn:E; [exact IH|].
  intros H. injection H as <- _. exact E.
Qed.

Lemma rstrip_prefix (s : str) : exists spaces, s = rstrip s ++ spaces.
Proof.
  unfold rstrip. destruct (lstrip_suffix (rev s)) as [sp H].
  exists (rev sp). rewrite <- rev_app_distr, <- H, rev_involutive. reflexivity.
Qed.

Lemma rstrip_last (s t : str) (c : char) :
  rstrip s = t ++ [c] -> is_space c = false.
Proof.
  unfold rstrip. intros H. apply (f_equal (@rev char)) in H.
  rewrite rev_involutive, rev_app_distr in H. simpl in H.
  apply (lstrip_head _ H).
Qed.

Lemma strip_length (s : str) : (length (strip s) <= length s)%nat.
Proof.
  unfold strip. destruct (rstrip_prefix (lstrip s)) as [sp1 H1].
  destruct (lstrip_suffix s) as [sp2 H2].
  apply (f_equal (@length char)) in H1. apply (f_equal (@length char)) in H2.
  rewrite length_app in H1, H2. lia.
Qed.

Lemma strip_head (s : str) (c : char) (t : str) :
  strip s = c :: t -> is_space c = false.
Proof.
  unfold strip. intros H. destruct (rstrip_prefix (lstrip s)) as [sp Hp].
  rewrite H in Hp. simpl in Hp. apply (lstrip_head _ Hp).
Qed.

Lemma strip_last (s t : str) (c : char) :
  strip s = t ++ [c] -> is_space c = false.
Proof. unfold strip. apply rstrip_last. Qed.

Section BodyPreview.

Variable Message : Type.
Variable lib : EmailLib Message.

Local Abbreviation _extract_body_preview := (_extract_body_preview lib).
Local Abbreviation first_plain_text := (first_plain_text lib).

Lemma preview_length (email_message : Message) :
  (length (_extract_body_preview email_message) <= 200)%nat.
Proof.
  unfold _extract_body_preview.
  match goal with |- context [truthy ?b] => generalize b; intros body end.
  destruct (truthy body); [|simpl; lia].
  pose proof (strip_length (firstn 200 body)).
  pose proof (firstn_le_length 200 body). lia.
Qed.

(** The body preview never has more than 200 characters, and it neither
    starts nor ends with white space. *)
Theorem body_preview_bounded (email_message : Message) :
  (length (_extract_body_preview email_message) <= 200)%nat
  /\ (forall c t, _extract_body_preview email_message = c :: t -> is_space c = false)
  /\ (forall t c, _extract_body_preview email_message = t ++ [c] -> is_space c = false).
Proof.
  unfold _extract_body_preview.
  match goal with |- context [truthy ?b] => generalize b; intros body end.
  destruct (truthy body).
  - split; [|split].
    + pose proof (strip_length (firstn 200 body)).
      pose proof (firstn_le_length 200 body). lia.
    + intros c t. apply strip_head.
    + intros t c. apply strip_last.
  - split; [simpl; lia|]. split; [discriminate|].
    intros [|x t] c H; discriminate.
Qed.

Lemma first_plain_text_skip (before after : list Message) (part : Message) :
  (forall p, In p before ->
     str_eqb (get_content_type lib p) (lit "text/plain") = true ->
     get_payload_decoded lib p = None) ->
  first_plain_text (before ++ part :: after) = first_plain_text (part :: after).
Proof.
  induction before as [|p before IH]; intros H; [reflexivity|].
  assert (first_plain_text (before ++ part :: after) = first_plain_text (part :: after))
    as IH' by (apply IH; intros q Hq; apply H; right; exact Hq).
  change (first_plain_text ((p :: before) ++ part :: after))
    with (if str_eqb (get_content_type lib p) (lit "text/plain")
          then match get_payload_decoded lib p with
               | Some b => utf8_decode_ignore lib b
               | None => first_plain_text (before ++ part :: after)
               end
          else first_plain_text (before ++ part :: after)).
  destruct (str_eqb (get_content_type lib p) (lit "text/plain")) eqn:E; [|exact IH'].
  rewrite (H p (or_introl eq_refl) E). exact IH'.
Qed.

(** In a multipart message the preview is taken from the first [text/plain]
    part, in [walk] order, whose payload decodes: its text cut to 200
    characters and stripped. *)
Theorem body_preview_first_plain_part (email_message : Message)
        (before after : list Message) (part : Message) (b : bytes) :
  is_multipart lib email_message = true ->
  walk lib email_message = before ++ part :: after ->
  (forall p, In p before ->
     str_eqb (get_content_type lib p) (lit "text/plain") = true ->
     get_payload_decoded lib p = None) ->
  str_eqb (get_content_type lib part) (lit "text/plain") = true ->
  get_payload_decoded lib part = Some b ->
  _extract_body_preview email_message
  = if truthy (utf8_decode_ignore lib b)
    then strip (firstn 200 (utf8_decode_ignore lib b))
    else [].
Proof.
  intros Hm Hw Hb Ht Hp. unfold _extract_body_preview.
  rewrite Hm, Hw, first_plain_text_skip by exact Hb.
  change (first_plain_text (part :: after))
    with (if str_eqb (get_content_type lib part) (lit "text/plain")
          then match get_payload_decoded lib part with
               | Some b => utf8_decode_ignore lib b
               | None => first_plain_text after
               end
          else first_plain_text after).
  rewrite Ht, Hp. reflexivity.
Qed.

(** A multipart message without a decodable [text/plain] part has the empty
    preview. *)
Theorem body_preview_without_plain_part (email_message : Message) :
  is_multipart lib email_message = true ->
  (forall p, In p (walk lib email_message) ->
     str_eqb (get_content_type lib p) (lit "text/plain") = true ->
     get_payload_decoded lib p = None) ->
  _extract_body_preview email_message = [].
Proof.
  intros Hm Hb. unfold _extract_body_preview. rewrite Hm.
  assert (first_plain_text (walk lib email_message) = []) as ->; [|reflexivity].
  induction (walk lib email_message) as [|p parts IH]; [reflexivity|].
  change (first_plain_text (p :: parts))
    with (if str_eqb (get_content_type lib p) (lit "text/plain")
          then match get_payload_decoded lib p with
               | Some b => utf8_decode_ignore lib b
               | None => first_plain_text parts
               end
          else first_plain_text parts).
  assert (first_plain_text parts = []) as IH'
    by (apply IH; intros q Hq; apply Hb; right; exact Hq).
  destruct (str_eqb (get_content_type lib p) (lit "text/plain")) eqn:E; [|exact IH'].
  rewrite (Hb p (or_introl eq_refl) E). exact IH'.
Qed.

End BodyPreview.

(** ** The Mailbox Gateway: archiving *)

Lemma subseq_refl {A} (l : list A) : subseq l l.
Proof. induction l; constructor; assumption. Qed.

Lemma subseq_filter {A} (f : A -> bool) (l : list A) : subseq (filter f l) l.
Proof.
  induction l as [|a l IH]; simpl; [constructor|].
  destruct (f a); constructor; exact IH.
Qed.

Lemma subseq_In {A} (sub l : list A) (x : A) : subseq sub l -> In x sub -> In x l.
Proof.
  induction 1 as [|y sub l H IH|y sub l H IH]; simpl; [tauto | tauto |].
  intros [-> | Hx]; [left; reflexivity | right; apply IH, Hx].
Qed.

Lemma subseq_map {A B} (f : A -> B) (sub l : list A) :
  subseq sub l -> subseq (map f sub) (map f l).
Proof. induction 1; simpl; constructor; assumption. Qed.

Lemma subseq_NoDup {A} (sub l : list A) : subseq sub l -> NoDup l -> NoDup sub.
Proof.
  induction 1 as [|y sub l H IH|y sub l H IH]; intros Hnd; [exact Hnd | |];
    inversion Hnd as [|z l' Hnotin Hnd']; subst.
  - apply IH, Hnd'.
  - constructor; [|apply IH, Hnd'].
    intros Hin. apply Hnotin. eapply subseq_In; eassumption.
Qed.

Lemma subseq_length {A} (sub l : list A) : subseq sub l -> (length sub <= length l)%nat.
Proof. induction 1; simpl; lia. Qed.

Lemma subseq_app {A} (s1 l1 s2 l2 : list A) :
  subseq s1 l1 -> subseq s2 l2 -> subseq (s1 ++ s2) (l1 ++ l2).
Proof.
  induction 1 as [|x s l H IH|x s l H IH]; intros H2; simpl.
  - exact H2.
  - apply subseq_skip, IH, H2.
  - apply subseq_take, IH, H2.
Qed.

Section Archiving.

Variable Conn : Type.
Variable imap_store : str -> str -> str -> IO Conn unit.
Variable imap_expunge : IO Conn unit.

Local Abbreviation store_flags := (store_flags imap_store).
Local Abbreviation archive_emails := (archive_emails imap_store imap_expunge).
Local Abbreviation archive_cluster := (archive_cluster imap_store imap_expunge).

Lemma store_flags_app (done rest : list str) (c : Conn) :
  store_flags (done ++ rest) c
  = match store_flags done c with
    | (Return _, c') => store_flags rest c'
    | (Raise e, c') => (Raise e, c')
    end.
Proof.
  revert c. induction done as [|u done IH]; intros c; [reflexivity|].
  simpl. unfold bind.
  destruct (imap_store u (lit "+X-GM-LABELS") (lit "\Important") c) as [[[]|e] c1];
    [|reflexivity].
  destruct (imap_store u (lit "+FLAGS") (lit "\Deleted") c1) as [[[]|e] c2];
    [|reflexivity].
  apply IH.
Qed.

(** Whatever goes wrong, [archive_emails] raises a [RuntimeError]: "Not
    connected to Gmail" when the client has no connection (nothing is sent),
    and "Failed to archive emails: ..." around the exception of a command. *)
Theorem archive_emails_raises_runtime_error
        (self self' : GmailClient Conn) (email_uids : list str) (e : exn) :
  archive_emails self email_uids = (Raise e, self') ->
  (connection self = None /\ self' = self
   /\ e = Exception "RuntimeError" (lit "Not connected to Gmail"))
  \/ (exists c c' e0,
        connection self = Some c /\ self' = with_connection self c'
        /\ bind (store_flags email_uids) (fun _ => imap_expunge) c = (Raise e0, c')
        /\ e = Exception "RuntimeError" (lit "Failed to archive emails: " ++ str_of_exn e0)).
Proof.
  unfold archive_emails. destruct (connection self) as [c|].
  - destruct (bind (store_flags email_uids) (fun _ => imap_expunge) c) as [[[]|e0] c'] eqn:E;
      intros H; [discriminate|].
    injection H as <- <-. right. exists c, c', e0. repeat split. exact E.
  - intros H. injection H as <- <-. left. repeat split.
Qed.

(** Archiving is not atomic.  When a STORE command of one uid raises, the
    uids before it have had both commands applied, the uids after it are not
    touched, EXPUNGE is not sent, and the connection is left in the state of
    the failure. *)
Theorem archive_emails_partial_failure
        (self : GmailClient Conn) (done rest : list str) (uid0 : str)
        (c c1 c2 : Conn) (e : exn) :
  connection self = Some c ->
  store_flags done c = (Return tt, c1) ->
  imap_store uid0 (lit "+X-GM-LABELS") (lit "\Important") c1 = (Raise e, c2)
  \/ (exists c1', imap_store uid0 (lit "+X-GM-LABELS") (lit "\Important") c1 = (Return tt, c1')
                  /\ imap_store uid0 (lit "+FLAGS") (lit "\Deleted") c1' = (Raise e, c2)) ->
  archive_emails self (done ++ uid0 :: rest)
  = (Raise (Exception "RuntimeError" (lit "Failed to archive emails: " ++ str_of_exn e)),
     with_connection self c2).
Proof.
  intros Hc Hdone Hfail. unfold archive_emails. rewrite Hc.
  unfold bind at 1. rewrite store_flags_app, Hdone. simpl. unfold bind.
  destruct Hfail as [H | [c1' [H1 H2]]].
  - rewrite H. reflexivity.
  - rewrite H1, H2. reflexivity.
Qed.

(** When the gateway call raises, the handler answers 500 with the text of
    the exception and keeps every cluster of the active set. *)
Theorem archive_cluster_gateway_failure
        (st : AppState Conn) (cid : Z) (client client' : GmailClient Conn)
        (target : EmailCluster) (e : exn) :
  current_gmail_client st = Some client ->
  find_cluster cid (current_clusters st) = Some target ->
  archive_emails client (map uid (emails target)) = (Raise e, client') ->
  archive_cluster (Return cid) st
  = (mkResponse 500 (Error (str_of_exn e)),
     mkAppState (current_clusters st) (Some client')).
Proof.
  intros Hc Hf Ha. unfold archive_cluster. rewrite Hc, Hf, Ha. reflexivity.
Qed.

(** The handler never adds, changes or reorders clusters: for every request
    and state the active set afterwards is the old one with some clusters
    left out, and it is the old one itself unless the answer is 200. *)
Theorem archive_cluster_only_removes (request : outcome Z) (st : AppState Conn) :
  let (response, st') := archive_cluster request st in
  subseq (current_clusters st') (current_clusters st)
  /\ (status response <> 200 -> current_clusters st' = current_clusters st).
Proof.
  unfold archive_cluster. destruct request as [cid|e].
  - destruct (current_gmail_client st) as [client|].
    + destruct (find_cluster cid (current_clusters st)) as [target|].
      * destruct (archive_emails client (map uid (emails target))) as [[[]|e] client'];
          simpl.
        -- split; [apply subseq_filter | intros H; contradiction H; reflexivity].
        -- split; [apply subseq_refl | reflexivity].
      * split; [apply subseq_refl | reflexivity].
    + split; [apply subseq_refl | reflexivity].
  - split; [apply subseq_refl | reflexivity].
Qed.

End Archiving.

(** On the recording connection [archive_emails] appends, for each uid in
    order, the label command and the flag command, and one EXPUNGE at the
    end. *)
Theorem archive_emails_command_trace (self : GmailClient MockConn) (log : MockConn)
        (email_uids : list str) :
  connection self = Some log ->
  archive_emails mock_store mock_expunge self email_uids
  = (Return tt,
     with_connection self (log ++ flat_map archive_commands email_uids ++ [EXPUNGE])).
Proof.
  intros Hc. unfold archive_emails. rewrite Hc. unfold bind.
  assert (forall uids l, store_flags mock_store uids l
                         = (Return tt, l ++ flat_map archive_commands uids)) as Hs.
  { induction uids as [|u uids IH]; intros l; simpl.
    - rewrite app_nil_r. reflexivity.
    - unfold bind, mock_store at 1 2. rewrite IH, <- !app_assoc. reflexivity. }
  rewrite Hs. unfold mock_expunge. rewrite <- app_assoc. reflexivity.
Qed.

(** ** The Mailbox Gateway: connecting and fetching *)

Lemma recent_messages_length (message_list : list bytes) (count : Z) :
  0 < count -> len (recent_messages message_list count) <= count.
Proof.
  intros Hpos. unfold recent_messages, slice_from, len.
  destruct (count <? Z.of_nat (length message_list)) eqn:E.
  - apply Z.ltb_lt in E.
    replace (- count <? 0) with true by (symmetry; apply Z.ltb_lt; lia).
    rewrite length_skipn. lia.
  - apply Z.ltb_ge in E. exact E.
Qed.

Section SessionFacts.

Variable Conn : Type.
Variable imap : ImapLib Conn.
Variable Message : Type.
Variable lib : EmailLib Message.

Local Abbreviation connect := (connect imap).
Local Abbreviation parse_email := (parse_email imap lib).
Local Abbreviation fetch_loop := (fetch_loop imap lib).
Local Abbreviation fetch_recent_emails := (fetch_recent_emails imap lib).


Lemma parse_email_fields (num email_body : bytes) (c c' : Conn) (email : EmailMessage) :
  parse_email num email_body c = (Return email, c') ->
  bytes_decode lib num = Return (uid email)
  /\ body_preview email = _extract_body_preview lib (message_from_bytes lib email_body)
  /\ has_attachments email = _has_attachments lib (message_from_bytes lib email_body).
Proof.
  unfold parse_email, bind, lift, ret.
  destruct (_decode_header _ _ (msg_get lib _ (lit "Subject") [])) as [s1|e]; [|discriminate].
  destruct (_decode_header _ _ (msg_get lib _ (lit "From") [])) as [s2|e]; [|discriminate].
  destruct (truthy (msg_get lib (message_from_bytes lib email_body) (lit "Date") [])).
  - destruct (parsedate_to_datetime lib _) as [d|e]; [|discriminate].
    destruct (bytes_decode lib num) as [u|e]; [|discriminate].
    intros H; injection H as <- _; repeat split.
  - destruct (datetime_now imap c) as [[d|e] c1]; [|discriminate].
    destruct (bytes_decode lib num) as [u|e]; [|discriminate].
    intros H; injection H as <- _; repeat split.
Qed.

Lemma fetch_loop_returns (nums : list bytes) :
  forall (acc : list EmailMessage) (c c' : Conn) (emails0 : list EmailMessage),
    fetch_loop nums acc c = (Return emails0, c') ->
    exists new visited,
      emails0 = acc ++ new
      /\ subseq visited nums
      /\ Forall2 (fun e num => bytes_decode lib num = Return (uid e)) new visited
      /\ Forall (fun e => (length (body_preview e) <= 200)%nat) new.
Proof.
  induction nums as [|num rest IH]; intros acc c c' emails0.
  - simpl. unfold ret. intros H. injection H as <- _.
    exists [], []. rewrite app_nil_r. repeat split; constructor.
  - assert (forall c0, fetch_loop rest acc c0 = (Return emails0, c') ->
              exists new visited,
                emails0 = acc ++ new /\ subseq visited (num :: rest)
                /\ Forall2 (fun e n => bytes_decode lib n = Return (uid e)) new visited
                /\ Forall (fun e => (length (body_preview e) <= 200)%nat) new) as Hskip.
    { intros c0 H. destruct (IH _ _ _ _ H) as [new [visited [He [Hs [Hf Hp]]]]].
      exists new, visited. repeat split; try assumption. apply subseq_skip, Hs. }
    simpl. unfold bind at 1.
    destruct (imap_fetch imap num (lit "(BODY.PEEK[HEADER] BODY.PEEK[TEXT])") c)
      as [[data|e] c0]; [|discriminate].
    destruct data as [|item data]; [apply Hskip|].
    destruct (item_truthy item); simpl; [|apply Hskip].
    match goal with |- context [truthy ?b] => destruct (truthy b) eqn:Eb end;
      simpl; [|apply Hskip].
    unfold bind at 1.
    match goal with |- context [parse_email num ?b c0] =>
      destruct (parse_email num b c0) as [[email|e] c1] eqn:Ep end; [|discriminate].
    intros H. destruct (IH _ _ _ _ H) as [new [visited [He [Hs [Hf Hp]]]]].
    apply parse_email_fields in Ep. destruct Ep as [Hu [Hb _]].
    exists (email :: new), (num :: visited). split; [rewrite He, <- app_assoc; reflexivity|].
    split; [apply subseq_take, Hs|]. split; constructor; try assumption.
    rewrite Hb. apply preview_length.
Qed.

(** When [fetch_recent_emails] returns, the client was connected and the
    search returned; the messages come, in order, from message numbers of
    [listRecent] (some may be skipped), each carrying its decoded number as
    uid and a preview of at most 200 characters; for a positive [count] at
    most [count] messages are returned. *)
Theorem fetch_recent_emails_returns
        (self self' : GmailClient Conn) (count : Z) (emails0 : list EmailMessage) :
  fetch_recent_emails self count = (Return emails0, self') ->
  exists c c0 c1 message_numbers visited,
    connection self = Some c
    /\ imap_settimeout imap 60 c = (Return tt, c0)
    /\ imap_search_all imap c0 = (Return message_numbers, c1)
    /\ subseq visited (listRecent (bytes_split message_numbers) count)
    /\ Forall2 (fun e num => bytes_decode lib num = Return (uid e)) emails0 visited
    /\ Forall (fun e => (length (body_preview e) <= 200)%nat) emails0
    /\ (0 < count -> len emails0 <= count).
Proof.
  unfold fetch_recent_emails. destruct (connection self) as [c|]; [|discriminate].
  unfold bind at 1 2.
  destruct (imap_settimeout imap 60 c) as [[[]|e] c0] eqn:Et; [|discriminate].
  destruct (imap_search_all imap c0) as [[numbers|e] c1] eqn:Es; [|discriminate].
  destruct (fetch_loop (listRecent (bytes_split numbers) count) [] c1)
    as [[emails1|e] c2] eqn:El; [|discriminate].
  intros H. injection H as <- _.
  destruct (fetch_loop_returns _ _ _ El) as [new [visited [He [Hs [Hf Hp]]]]].
  simpl in He. subst new.
  exists c, c0, c1, numbers, visited. repeat (split; [first [reflexivity | assumption]|]).
  intros Hpos. pose proof (subseq_length Hs) as Hl.
  pose proof (Forall2_length Hf) as Hl2.
  pose proof (recent_messages_length (bytes_split numbers) Hpos) as Hr.
  unfold listRecent in Hl. rewrite length_rev in Hl. unfold len in *. lia.
Qed.

Lemma fetch_loop_app (done rest : list bytes) :
  forall (acc : list EmailMessage) (c : Conn),
    fetch_loop (done ++ rest) acc c
    = match fetch_loop done acc c with
      | (Return acc', c') => fetch_loop rest acc' c'
      | (Raise e, c') => (Raise e, c')
      end.
Proof.
  induction done as [|num done IH]; intros acc c; [reflexivity|].
  simpl. unfold bind at 1 3.
  destruct (imap_fetch imap num (lit "(BODY.PEEK[HEADER] BODY.PEEK[TEXT])") c)
    as [[data|e] c0]; [|reflexivity].
  destruct data as [|item data]; [apply IH|].
  destruct (item_truthy item); simpl; [|apply IH].
  match goal with |- context [truthy ?b] => destruct (truthy b) end; simpl; [|apply IH].
  unfold bind.
  match goal with |- context [parse_email num ?b c0] =>
    destruct (parse_email num b c0) as [[email|e] c1] end; [apply IH | reflexivity].
Qed.

(** Whatever goes wrong, [fetch_recent_emails] raises a [RuntimeError]: "Not
    connected to Gmail" without a connection (the client is unchanged), and
    otherwise "Failed to fetch emails: ..." around the very exception with
    which the timeout call, the search or the fetch loop stopped.  An
    exception in the parsing of one message ends the whole batch: when the
    messages before it were processed and its own payload is not empty, the
    call raises with that exception, whatever messages follow. *)
Theorem fetch_recent_emails_raises_runtime_error :
  (forall (self self' : GmailClient Conn) (count : Z) (e : exn),
     fetch_recent_emails self count = (Raise e, self') ->
     (connection self = None /\ self' = self
      /\ e = Exception "RuntimeError" (lit "Not connected to Gmail"))
     \/ (exists c c' e0,
           connection self = Some c /\ self' = with_connection self c'
           /\ bind (imap_settimeout imap 60)
                   (fun _ => bind (imap_search_all imap)
                      (fun message_numbers =>
                         fetch_loop (listRecent (bytes_split message_numbers) count) []))
                   c
              = (Raise e0, c')
           /\ e = Exception "RuntimeError"
                            (lit "Failed to fetch emails: " ++ str_of_exn e0)))
  /\ (forall (self : GmailClient Conn) (count : Z) (c c0 c1 c2 c3 c4 : Conn)
             (message_numbers : bytes) (done rest : list bytes) (num : bytes)
             (before : list EmailMessage) (item : fetch_item) (data : list fetch_item)
             (envelope payload : bytes) (e0 : exn),
        connection self = Some c ->
        imap_settimeout imap 60 c = (Return tt, c0) ->
        imap_search_all imap c0 = (Return message_numbers, c1) ->
        listRecent (bytes_split message_numbers) count = done ++ num :: rest ->
        fetch_loop done [] c1 = (Return before, c2) ->
        imap_fetch imap num (lit "(BODY.PEEK[HEADER] BODY.PEEK[TEXT])") c2
        = (Return (item :: data), c3) ->
        item = ItemTuple envelope payload \/ item = ItemBytes payload ->
        truthy payload = true ->
        parse_email num payload c3 = (Raise e0, c4) ->
        fetch_recent_emails self count
        = (Raise (Exception "RuntimeError"
                    (lit "Failed to fetch emails: " ++ str_of_exn e0)),
           with_connection self c4)).
Proof.
  split.
  - intros self self' count e. unfold fetch_recent_emails.
    destruct (connection self) as [c|].
    + match goal with |- context [let '(r, c') := ?m c in _] =>
        destruct (m c) as [[emails0|e0] c'] eqn:E end; intros H; [discriminate|].
      injection H as <- <-. right. exists c, c', e0. repeat split. exact E.
    + intros H. injection H as <- <-. left. repeat split.
  - intros self count c c0 c1 c2 c3 c4 numbers done rest num before item data
           envelope payload e0 Hc Ht Hs Hl Hd Hf Hi Hp He.
    unfold fetch_recent_emails. rewrite Hc. unfold bind at 1 2. rewrite Ht, Hs, Hl.
    rewrite fetch_loop_app, Hd. simpl. unfold bind at 1. rewrite Hf.
    destruct Hi as [-> | ->]; simpl; rewrite Hp; simpl; unfold bind at 1;
      rewrite He; reflexivity.
Qed.

End SessionFacts.

(** ** The web application: login, logout and the active set *)

Lemma subseq_trans {A} (l1 l2 l3 : list A) : subseq l1 l2 -> subseq l2 l3 -> subseq l1 l3.
Proof.
  intros H12 H23. revert l1 H12.
  induction H23 as [|x l2 l3 H IH|x l2 l3 H IH]; intros l1 H12.
  - exact H12.
  - apply subseq_skip, IH, H12.
  - inversion H12 as [|y s l Hs|y s l Hs]; subst.
    + apply subseq_skip, IH, Hs.
    + apply subseq_take, IH, Hs.
Qed.

Lemma cluster_emails_ids (title : str -> str) (self : EmailClusterer)
      (msgs : list EmailMessage) (num_clusters : Z) :
  map cluster_id (cluster_emails title self msgs num_clusters)
  = map Z.of_nat (seq 0 (length (cluster_emails title self msgs num_clusters))).
Proof.
  rewrite cluster_emails_spec.
  destruct ((len msgs <? min_cluster_size self) || negb (some_domain_reaches self msgs));
    [reflexivity|].
  rewrite number_clusters_ids, number_clusters_length. apply map_ext. intros i; lia.
Qed.

Lemma cluster_emails_nonempty (title : str -> str) (self : EmailClusterer)
      (msgs : list EmailMessage) (num_clusters : Z) :
  (1 <= length (cluster_emails title self msgs num_clusters))%nat.
Proof.
  rewrite cluster_emails_spec.
  destruct ((len msgs <? min_cluster_size self) || negb (some_domain_reaches self msgs)) eqn:E;
    [simpl; lia|].
  apply orb_false_iff in E. destruct E as [_ E]. apply negb_false_iff in E.
  rewrite number_clusters_length, length_map. rewrite <- kept_keys_truthy in E.
  destruct (kept_keys self msgs); [discriminate | simpl; lia].
Qed.

Lemma cluster_members_le (title : str -> str) (self : EmailClusterer)
      (msgs : list EmailMessage) (num_clusters : Z) :
  (length (concat (map emails (cluster_emails title self msgs num_clusters)))
   <= length msgs)%nat.
Proof.
  rewrite cluster_emails_spec.
  destruct ((len msgs <? min_cluster_size self) || negb (some_domain_reaches self msgs)).
  - change (concat (map emails [_create_single_cluster msgs])) with (msgs ++ []).
    rewrite app_nil_r. lia.
  - rewrite number_clusters_emails, map_map. cbn [snd].
    change (fun x : str => group_of msgs x) with (group_of msgs).
    rewrite (Permutation_length (concat_groups_perm msgs (kept_keys_NoDup self msgs))).
    apply filter_length_le.
Qed.

Lemma sum_member_counts (clusters : list EmailCluster) :
  fold_right Z.add 0 (map (fun c => len (emails c)) clusters)
  = len (concat (map emails clusters)).
Proof.
  unfold len. induction clusters as [|c clusters IH]; simpl; [reflexivity|].
  rewrite IH, length_app. lia.
Qed.

Section WebAppFacts.

Variable title : str -> str.
Variable strftime : datetime -> str -> str.
Variable generate_demo_emails : Z -> list EmailMessage.
Variable Conn : Type.
Variable imap_store : str -> str -> str -> IO Conn unit.
Variable imap_expunge : IO Conn unit.
Variable imap : ImapLib Conn.
Variable Message : Type.
Variable lib : EmailLib Message.
Variable getenv : string -> option str.
Variable int_of_str : str -> outcome Z.

Local Abbreviation login_emails :=
  (login_emails generate_demo_emails imap lib getenv int_of_str).
Local Abbreviation login :=
  (login title strftime generate_demo_emails imap lib getenv int_of_str).
Local Abbreviation cluster_data := (cluster_data strftime).
Local Abbreviation archive_emails := (archive_emails imap_store imap_expunge).
Local Abbreviation archive_cluster := (archive_cluster imap_store imap_expunge).
Local Abbreviation disconnect_handler := (disconnect_handler imap).
Local Abbreviation run_session :=
  (run_session title strftime generate_demo_emails imap_store imap_expunge imap lib
               getenv int_of_str).
Local Abbreviation handle :=
  (handle title strftime generate_demo_emails imap_store imap_expunge imap lib
          getenv int_of_str).

Lemma login_emails_clusters (e p : option str) (n : Z) (st : AppState Conn) :
  current_clusters (snd (login_emails e p n st)) = current_clusters st.
Proof.
  unfold login_emails. destruct (str_eqb (opt_str e) (lit "demo@gmail.com")); [reflexivity|].
  destruct (GmailClient_init Conn getenv int_of_str e p) as [client|ex]; [|reflexivity].
  destruct (connect imap client) as [[[]|ex] client']; [|reflexivity].
  destruct (fetch_recent_emails imap lib client' n) as [r client'']. reflexivity.
Qed.

(** [login] replaces the active set only when it answers 200, and then by
    the clusters of the fetched emails, which the answer lists: the demo
    emails for the demo address, and otherwise the emails
    [fetch_recent_emails] returned on the new, connected client, which
    becomes the gateway client.  On every other answer the clusters of the
    earlier session stay active. *)
Theorem login_changes_clusters_only_on_success (request : LoginRequest) (st : AppState Conn) :
  let (response, st') := login request st in
  (login_status response = 200 ->
     exists emails0 num_clusters,
       req_clusters request = Return num_clusters
       /\ current_clusters st' = cluster_emails title default_clusterer emails0 num_clusters
       /\ login_body response
          = LoginSuccess (map cluster_data (current_clusters st')) (len emails0)
       /\ exists email_count st1,
            req_count request = Return email_count
            /\ login_emails (req_email request) (req_password request) email_count st
               = (Return emails0, st1)
            /\ current_gmail_client st' = current_gmail_client st1
            /\ ((str_eqb (opt_str (req_email request)) (lit "demo@gmail.com") = true
                 /\ emails0 = generate_demo_emails email_count
                 /\ st1 = st)
                \/ (str_eqb (opt_str (req_email request)) (lit "demo@gmail.com") = false
                    /\ exists client client' client'',
                         GmailClient_init Conn getenv int_of_str
                                          (req_email request) (req_password request)
                         = Return client
                         /\ connect imap client = (Return tt, client')
                         /\ fetch_recent_emails imap lib client' email_count
                            = (Return emails0, client'')
                         /\ st1 = mkAppState (current_clusters st) (Some client''))))
  /\ (login_status response <> 200 -> current_clusters st' = current_clusters st).
Proof.
  unfold login.
  destruct (req_clusters request) as [n|e]; [|split; [discriminate | reflexivity]].
  destruct (req_count request) as [k|e]; [|split; [discriminate | reflexivity]].
  destruct (negb (opt_truthy (req_email request)) || negb (opt_truthy (req_password request)));
    [split; [discriminate | reflexivity]|].
  pose proof (login_emails_clusters (req_email request) (req_password request) k st) as Hc.
  destruct (login_emails (req_email request) (req_password request) k st)
    as [[emails0|e] st1] eqn:El; simpl in Hc.
  - split; [|intros H; contradiction H; reflexivity].
    intros _. exists emails0, n. split; [reflexivity|]. split; [reflexivity|].
    split; [reflexivity|]. exists k, st1. split; [reflexivity|]. split; [exact El|].
    split; [reflexivity|].
    unfold login_emails in El.
    destruct (str_eqb (opt_str (req_email request)) (lit "demo@gmail.com")).
    + left. injection El as <- <-. repeat split.
    + right. split; [reflexivity|].
      destruct (GmailClient_init Conn getenv int_of_str (req_email request)
                                 (req_password request)) as [client|ex]; [|discriminate].
      destruct (connect imap client) as [[[]|ex] client'] eqn:Ecn; [|discriminate].
      destruct (fetch_recent_emails imap lib client' k) as [r client''] eqn:Ef.
      injection El as -> <-. exists client, client', client''.
      repeat split; assumption.
  - split; [discriminate | intros _; exact Hc].
Qed.

(** A demo login answers 200 with the clusters of the demo emails and leaves
    the gateway client of the earlier login in place; archiving one of the
    demo clusters then runs the gateway call of that client on the demo
    uids. *)
Theorem demo_login_keeps_gateway_client
        (request : LoginRequest) (st : AppState Conn) (num_clusters email_count : Z) :
  req_email request = Some (lit "demo@gmail.com") ->
  opt_truthy (req_password request) = true ->
  req_clusters request = Return num_clusters ->
  req_count request = Return email_count ->
  let demo := cluster_emails title default_clusterer (generate_demo_emails email_count)
                             num_clusters in
  login request st
  = (mkLoginResponse 200 (LoginSuccess (map cluster_data demo)
                                        (len (generate_demo_emails email_count))),
     mkAppState demo (current_gmail_client st))
  /\ forall client client' cid target,
       current_gmail_client st = Some client ->
       find_cluster cid demo = Some target ->
       archive_emails client (map uid (emails target)) = (Return tt, client') ->
       snd (archive_cluster (Return cid) (snd (login request st)))
       = mkAppState (filter (fun c => negb (cluster_id c =? cid)) demo) (Some client').
Proof.
  intros He Hp Hn Hk demo.
  assert (login request st
          = (mkLoginResponse 200 (LoginSuccess (map cluster_data demo)
                                                (len (generate_demo_emails email_count))),
             mkAppState demo (current_gmail_client st))) as Hl.
  { unfold login, login_emails. rewrite Hn, Hk, He, Hp. reflexivity. }
  split; [exact Hl|].
  intros client client' cid target Hc Hf Ha. rewrite Hl. unfold archive_cluster. simpl.
  rewrite Hc, Hf, Ha. reflexivity.
Qed.

(** In a 200 answer of [login] the cluster entries carry the ids 0, 1, 2,
    ..., there is at least one entry, each entry's [email_count] is the
    number of emails it lists, and the counts add up to at most
    [total_emails]. *)
Theorem login_response_counts
        (request : LoginRequest) (st st' : AppState Conn) (code : Z)
        (clusters_data : list ClusterData) (total_emails : Z) :
  login request st = (mkLoginResponse code (LoginSuccess clusters_data total_emails), st') ->
  code = 200
  /\ clusters_data = map cluster_data (current_clusters st')
  /\ map data_id clusters_data = map Z.of_nat (seq 0 (length clusters_data))
  /\ (1 <= length clusters_data)%nat
  /\ Forall (fun cd => data_email_count cd = len (data_emails cd)) clusters_data
  /\ fold_right Z.add 0 (map data_email_count clusters_data) <= total_emails.
Proof.
  unfold login.
  destruct (req_clusters request) as [n|e]; [|discriminate].
  destruct (req_count request) as [k|e]; [|discriminate].
  destruct (negb (opt_truthy (req_email request)) || negb (opt_truthy (req_password request)));
    [discriminate|].
  destruct (login_emails (req_email request) (req_password request) k st) as [[emails0|e] st1];
    [|discriminate].
  intros H. injection H as <- <- <- <-. simpl current_clusters.
  split; [reflexivity|]. split; [reflexivity|].
  rewrite !map_map, length_map.
  split; [apply cluster_emails_ids|]. split; [apply cluster_emails_nonempty|]. split.
  - apply Forall_forall. intros cd Hcd. apply in_map_iff in Hcd.
    destruct Hcd as [c [<- _]]. unfold len. simpl. rewrite length_map. reflexivity.
  - change (fun x : EmailCluster => data_email_count (cluster_data x))
      with (fun c : EmailCluster => len (emails c)).
    rewrite sum_member_counts. unfold len. apply inj_le, cluster_members_le.
Qed.

Lemma archive_cluster_subseq (request : outcome Z) (st : AppState Conn) :
  subseq (current_clusters (snd (archive_cluster request st))) (current_clusters st).
Proof.
  unfold archive_cluster. destruct request as [cid|e]; [|apply subseq_refl].
  destruct (current_gmail_client st) as [client|]; [|apply subseq_refl].
  destruct (find_cluster cid (current_clusters st)) as [target|]; [|apply subseq_refl].
  destruct (archive_emails client (map uid (emails target))) as [[[]|e] client']; simpl;
    [apply subseq_filter | apply subseq_refl].
Qed.

Lemma disconnect_handler_clusters (st : AppState Conn) :
  current_clusters (snd (disconnect_handler st)) = current_clusters st.
Proof.
  unfold disconnect_handler. destruct (current_gmail_client st) as [client|]; [|reflexivity].
  destruct (disconnect imap client) as [[[]|e] client']; reflexivity.
Qed.

Lemma login_clusters (request : LoginRequest) (st : AppState Conn) :
  current_clusters (snd (login request st)) = current_clusters st
  \/ exists emails0 n,
       current_clusters (snd (login request st))
       = cluster_emails title default_clusterer emails0 n.
Proof.
  unfold login.
  destruct (req_clusters request) as [n|e]; [|left; reflexivity].
  destruct (req_count request) as [k|e]; [|left; reflexivity].
  destruct (negb (opt_truthy (req_email request)) || negb (opt_truthy (req_password request)));
    [left; reflexivity|].
  pose proof (login_emails_clusters (req_email request) (req_password request) k st) as Hc.
  destruct (login_emails (req_email request) (req_password request) k st) as [[emails0|e] st1];
    simpl in *; [right; exists emails0, n; reflexivity | left; exact Hc].
Qed.

Lemma handle_ids (st : AppState Conn) (r : Request) (n : nat) :
  subseq (map cluster_id (current_clusters st)) (map Z.of_nat (seq 0 n)) ->
  exists n', subseq (map cluster_id (current_clusters (handle st r)))
                    (map Z.of_nat (seq 0 n')).
Proof.
  intros H. destruct r as [request|request_cluster_id|]; simpl.
  - destruct (login_clusters request st) as [-> | [emails0 [k ->]]].
    + exists n; exact H.
    + eexists. rewrite cluster_emails_ids. apply subseq_refl.
  - exists n. eapply subseq_trans; [|exact H].
    apply subseq_map, archive_cluster_subseq.
  - exists n. rewrite disconnect_handler_clusters. exact H.
Qed.

(** Whatever requests a fresh process has served, in any order and with any
    outcome, the clusters of the active set have pairwise distinct ids, none
    of them negative. *)
Theorem session_cluster_ids_distinct (requests : list Request) :
  NoDup (map cluster_id (current_clusters (run_session requests)))
  /\ Forall (fun i => 0 <= i) (map cluster_id (current_clusters (run_session requests))).
Proof.
  assert (exists n, subseq (map cluster_id (current_clusters (run_session requests)))
                           (map Z.of_nat (seq 0 n))) as [n Hn].
  { unfold run_session. induction requests as [|r requests IH] using rev_ind.
    - exists 0%nat. constructor.
    - rewrite fold_left_app. simpl. destruct IH as [n IH]. eapply handle_ids, IH. }
  split.
  - eapply subseq_NoDup; [exact Hn | apply ids_from_zero_NoDup].
  - apply Forall_forall. intros i Hi. eapply subseq_In in Hi; [|exact Hn].
    apply in_map_iff in Hi. destruct Hi as [k [<- _]]. lia.
Qed.

(** After a [/disconnect] that returned, no gateway client is left while the
    clusters stay in the active set: archiving any of them is answered 400
    "Not connected to Gmail" and changes nothing. *)
Theorem disconnect_then_archive (st st' : AppState Conn) (cid : Z) :
  disconnect_handler st = (Return tt, st') ->
  current_gmail_client st' = None
  /\ current_clusters st' = current_clusters st
  /\ archive_cluster (Return cid) st'
     = (mkResponse 400 (Error (lit "Not connected to Gmail")), st').
Proof.
  unfold disconnect_handler. destruct (current_gmail_client st) as [client|] eqn:Ec.
  - destruct (disconnect imap client) as [[[]|e] client']; intros H; [|discriminate].
    injection H as <-. repeat split.
  - intros H. injection H as <-. unfold archive_cluster. rewrite Ec. repeat split.
Qed.

End WebAppFacts.

(** ** The command line: table rows *)

Lemma before_lt_length (s : str) : (length (before_lt s) <= length s)%nat.
Proof.
  induction s as [|c t IH]; simpl; [lia|]. destruct (N.eqb c 60); simpl; lia.
Qed.



(** ** The Message Normalizer: decoded headers *)

Section HeaderText.

Variable decode_header : str -> outcome (list (header_part * option str)).
Variable bytes_decode_ignore : bytes -> str -> outcome str.

Local Abbreviation decode_parts := (decode_parts bytes_decode_ignore).
Local Abbreviation _decode_header := (_decode_header decode_header bytes_decode_ignore).

Lemma decode_parts_concat (parts : list (header_part * option str)) (texts : list str) :
  Forall2 (fun part text =>
             match fst part with
             | PartStr s => text = s
             | PartBytes b => bytes_decode_ignore b (encoding_or_utf8 (snd part)) = Return text
             end) parts texts ->
  forall acc, decode_parts parts acc = Return (acc ++ concat texts).
Proof.
  induction 1 as [|[[b|s] enc] text parts texts Hp Hf IH]; intros acc; simpl in *.
  - rewrite app_nil_r. reflexivity.
  - rewrite Hp, IH, app_assoc. reflexivity.
  - subst text. rewrite IH, app_assoc. reflexivity.
Qed.

(** The decoded header is the concatenation, in order, of the parts the
    library returns: a [str] part as it is, a [bytes] part decoded with its
    charset, or with utf-8 when it has none. *)
Theorem decode_header_concatenates
        (header : str) (parts : list (header_part * option str)) (texts : list str) :
  decode_header header = Return parts ->
  Forall2 (fun part text =>
             match fst part with
             | PartStr s => text = s
             | PartBytes b => bytes_decode_ignore b (encoding_or_utf8 (snd part)) = Return text
             end) parts texts ->
  _decode_header header = Return (if truthy header then concat texts else []).
Proof.
  intros Hd Hf. unfold _decode_header. destruct (truthy header); simpl; [|reflexivity].
  rewrite Hd. apply (decode_parts_concat Hf []).
Qed.

End HeaderText.

Lemma decode_header_concatenates_witness :
  sample_decode_header (lit "Re: hello") = Return [(PartStr (lit "Re: hello"), None)]
  /\ _decode_header sample_decode_header sample_bytes_decode (lit "Re: hello")
     = Return (lit "Re: hello").
Proof.
  split; [reflexivity|].
  apply (@decode_header_concatenates sample_decode_header sample_bytes_decode
           (lit "Re: hello") [(PartStr (lit "Re: hello"), None)] [lit "Re: hello"] eq_refl).
  repeat constructor.
Defined.

(** ** Sample runs *)

Lemma listRecent_positive_limit_witness :
  0 < 2
  /\ listRecent [lit "1"; lit "2"; lit "3"] 2 = [lit "3"; lit "2"]
  /\ len (listRecent [lit "1"; lit "2"; lit "3"] 2) = 2.
Proof.
  assert (0 < 2) as H by lia. split; [exact H|].
  exact (@listRecent_positive_limit [lit "1"; lit "2"; lit "3"] 2 H).
Defined.

Lemma listRecent_negative_limit_witness :
  -1 < 0 /\ listRecent [lit "1"; lit "2"; lit "3"] (-1) = [lit "3"; lit "2"].
Proof.
  assert (-1 < 0) as H by lia. split; [exact H|].
  exact (@listRecent_negative_limit [lit "1"; lit "2"; lit "3"] (-1) H).
Defined.

Lemma body_preview_first_plain_part_witness :
  _extract_body_preview mock_lib html_then_plain = lit "hello world".
Proof.
  apply (@body_preview_first_plain_part MockMessage mock_lib html_then_plain
           [html_then_plain; MockPart (lit "text/html") None (Some (lit "<p>hello</p>"))]
           [] (MockPart (lit "text/plain") None (Some (lit "  hello world  ")))
           (lit "  hello world  ")); try reflexivity.
  intros p [<- | [<- | []]] H; [reflexivity | vm_compute in H; discriminate].
Defined.

Lemma body_preview_without_plain_part_witness :
  _extract_body_preview mock_lib html_only = [].
Proof.
  apply (@body_preview_without_plain_part MockMessage mock_lib html_only); [reflexivity|].
  intros p [<- | [<- | []]] H; [reflexivity | vm_compute in H; discriminate].
Defined.

Lemma archive_emails_raises_runtime_error_witness :
  archive_emails mock_store mock_expunge unconnected_client [lit "1"]
  = (Raise (Exception "RuntimeError" (lit "Not connected to Gmail")), unconnected_client).
Proof.
  destruct (@archive_emails_raises_runtime_error MockConn mock_store mock_expunge
              unconnected_client unconnected_client [lit "1"]
              (Exception "RuntimeError" (lit "Not connected to Gmail")) eq_refl)
    as [[_ [_ _]] | [c [c' [e0 [H _]]]]]; [reflexivity | discriminate H].
Defined.

Lemma archive_emails_partial_failure_witness :
  archive_emails (flaky_store (lit "2")) mock_expunge mock_client [lit "1"; lit "2"; lit "3"]
  = (Raise (Exception "RuntimeError"
              (lit "Failed to archive emails: STORE command error: BAD")),
     with_connection mock_client (archive_commands (lit "1"))).
Proof.
  apply (@archive_emails_partial_failure MockConn (flaky_store (lit "2")) mock_expunge
           mock_client [lit "1"] [lit "3"] (lit "2") [] (archive_commands (lit "1"))
           (archive_commands (lit "1"))
           (Exception "error" (lit "STORE command error: BAD"))); try reflexivity.
  left; reflexivity.
Defined.

Lemma archive_emails_command_trace_witness :
  archive_emails mock_store mock_expunge mock_client [lit "7"; lit "9"]
  = (Return tt,
     with_connection mock_client
       (archive_commands (lit "7") ++ archive_commands (lit "9") ++ [EXPUNGE])).
Proof.
  exact (@archive_emails_command_trace mock_client [] [lit "7"; lit "9"] eq_refl).
Defined.

Lemma fetch_recent_emails_returns_witness :
  exists emails0 self',
    fetch_recent_emails mock_imap mock_lib mock_client 2 = (Return emails0, self')
    /\ map uid emails0 = [lit "3"]
    /\ map body_preview emails0 = [lit "hello world"]
    /\ len emails0 <= 2.
Proof.
  destruct (fetch_recent_emails mock_imap mock_lib mock_client 2) as [r self'] eqn:E.
  vm_compute in E. injection E as <- <-.
  eexists; eexists. split; [reflexivity|]. split; [reflexivity|]. split; [reflexivity|].
  destruct (@fetch_recent_emails_returns MockConn mock_imap MockMessage mock_lib
              mock_client _ 2 _ eq_refl)
    as [c [c0 [c1 [numbers [visited [_ [_ [_ [_ [_ [_ H]]]]]]]]]]].
  apply H. lia.
Defined.

(** One message with an unknown charset in its Subject fails the whole
    fetch. *)
Lemma fetch_recent_emails_raises_runtime_error_witness :
  fetch_recent_emails mock_imap unknown_charset_lib mock_client 2
  = (Raise (Exception "RuntimeError"
              (lit "Failed to fetch emails: unknown encoding: x-unknown")),
     with_connection mock_client []).
Proof.
  apply (proj2 (@fetch_recent_emails_raises_runtime_error MockConn mock_imap MockMessage
                  unknown_charset_lib)
           mock_client 2 [] [] [] [] [] [] (lit "1 2 3") [] [lit "2"] (lit "3") []
           (ItemTuple (lit "3") (lit "  hello world  ")) []
           (lit "3") (lit "  hello world  ")
           (Exception "LookupError" (lit "unknown encoding: x-unknown")));
    try reflexivity.
  left; reflexivity.
Defined.

Lemma demo_login_keeps_gateway_client_witness :
  current_gmail_client (snd (mock_login demo_request live_state)) = Some mock_client
  /\ current_clusters (snd (mock_login demo_request live_state)) = clusters_x3_y1.
Proof.
  pose proof (proj1 (@demo_login_keeps_gateway_client ascii_title mock_strftime
                       mock_demo_emails MockConn mock_store mock_expunge mock_imap
                       MockMessage mock_lib mock_getenv mock_int_of_str
                       demo_request live_state 5 200 eq_refl eq_refl eq_refl eq_refl)) as H.
  unfold mock_login. rewrite H. split; reflexivity.
Defined.

Lemma login_response_counts_witness :
  exists clusters_data st',
    mock_login demo_request live_state
    = (mkLoginResponse 200 (LoginSuccess clusters_data 4), st')
    /\ map data_email_count clusters_data = [3]
    /\ fold_right Z.add 0 (map data_email_count clusters_data) <= 4.
Proof.
  destruct (mock_login demo_request live_state) as [r st'] eqn:E.
  vm_compute in E. injection E as <- <-.
  eexists; eexists. split; [reflexivity|]. split; [reflexivity|].
  destruct (@login_response_counts ascii_title mock_strftime mock_demo_emails MockConn
              mock_imap MockMessage mock_lib mock_getenv mock_int_of_str
              demo_request live_state _ 200 _ 4 eq_refl) as [_ [_ [_ [_ [_ H]]]]].
  exact H.
Defined.

Lemma disconnect_then_archive_witness :
  disconnect_handler mock_imap (mkAppState clusters_x3_y1 (Some mock_client))
  = (Return tt, mkAppState clusters_x3_y1 None)
  /\ mock_archive_cluster (Return 0) (mkAppState clusters_x3_y1 None)
     = (mkResponse 400 (Error (lit "Not connected to Gmail")),
        mkAppState clusters_x3_y1 None).
Proof.
  split; [reflexivity|].
  exact (proj2 (proj2 (@disconnect_then_archive MockConn mock_store mock_expunge mock_imap
                         (mkAppState clusters_x3_y1 (Some mock_client))
                         (mkAppState clusters_x3_y1 None) 0 eq_refl))).
Defined.

(** ** [_analyze_cluster]: keywords *)

Lemma distinct_keys_snoc (p : list str) (w : str) :
  distinct_keys (p ++ [w]) = add_key w (distinct_keys p).
Proof. unfold distinct_keys. rewrite fold_left_app. reflexivity. Qed.

Lemma distinct_keys_NoDup (l : list str) : NoDup (distinct_keys l).
Proof.
  induction l as [|w p IH] using rev_ind; [constructor|].
  rewrite distinct_keys_snoc. apply add_key_NoDup, IH.
Qed.

Lemma distinct_keys_In (l : list str) (k : str) : In k (distinct_keys l) <-> In k l.
Proof.
  induction l as [|w p IH] using rev_ind; [reflexivity|].
  rewrite distinct_keys_snoc, add_key_In, IH, in_app_iff. simpl. split.
  - intros [H | ->]; [left; exact H | right; left; reflexivity].
  - intros [H | [<- | []]]; [left; exact H | right; reflexivity].
Qed.

Lemma occurrences_snoc (p : list str) (w k : str) :
  occurrences (p ++ [w]) k = occurrences p k + (if str_eqb k w then 1 else 0).
Proof.
  unfold occurrences, len. rewrite filter_app, length_app. simpl.
  destruct (str_eqb k w); simpl; lia.
Qed.

Lemma occurrences_zero (l : list str) (w : str) : ~ In w l -> occurrences l w = 0.
Proof.
  intros H. unfold occurrences. rewrite filter_none; [reflexivity|].
  intros x Hx. apply str_eqb_neq. intros ->; contradiction.
Qed.

Lemma counter_add_tabulate (p : list str) (w : str) (ks : list str) :
  NoDup ks ->
  In w ks \/ occurrences p w = 0 ->
  counter_add w (map (fun k => (k, occurrences p k)) ks)
  = map (fun k => (k, occurrences (p ++ [w]) k)) (add_key w ks).
Proof.
  unfold counter_add. induction 1 as [|x ks Hx Hnd IH]; intros Hw; simpl.
  - destruct Hw as [[] | Hw]. rewrite occurrences_snoc, Hw, str_eqb_refl. reflexivity.
  - destruct (str_eqb x w) eqn:E; simpl.
    + apply str_eqb_eq in E; subst x. rewrite occurrences_snoc, str_eqb_refl.
      f_equal. apply map_ext_in. intros k Hk. rewrite occurrences_snoc.
      replace (str_eqb k w) with false; [f_equal; lia|].
      symmetry; apply str_eqb_neq. intros ->; contradiction.
    + rewrite IH.
      * rewrite occurrences_snoc, E, Z.add_0_r. reflexivity.
      * destruct Hw as [[-> | Hw] | Hw]; [rewrite str_eqb_refl in E; discriminate | left | right];
          assumption.
Qed.

(** The counter holds each distinct element once, in order of first
    occurrence, with its number of occurrences. *)
Lemma Counter_spec (l : list str) :
  Counter l = map (fun k => (k, occurrences l k)) (distinct_keys l).
Proof.
  unfold Counter. induction l as [|w p IH] using rev_ind; [reflexivity|].
  rewrite fold_left_app. simpl. rewrite IH, distinct_keys_snoc.
  apply counter_add_tabulate; [apply distinct_keys_NoDup|].
  destruct (in_dec (list_eq_dec N.eq_dec) w (distinct_keys p)) as [H | H]; [left; exact H|].
  right. apply occurrences_zero. rewrite <- distinct_keys_In. exact H.
Qed.

Lemma insert_by_count_perm (x : str * Z) (l : list (str * Z)) :
  Permutation (insert_by_count x l) (x :: l).
Proof.
  induction l as [|y r IH]; simpl; [apply Permutation_refl|].
  destruct (snd y <=? snd x); [apply Permutation_refl|].
  eapply Permutation_trans; [apply perm_skip, IH | apply perm_swap].
Qed.

Lemma sorted_by_count_perm (l : list (str * Z)) : Permutation (sorted_by_count l) l.
Proof.
  induction l as [|x l IH]; simpl; [constructor|].
  eapply Permutation_trans; [apply insert_by_count_perm | apply perm_skip, IH].
Qed.

Lemma subseq_firstn {A} (n : nat) (l : list A) : subseq (firstn n l) l.
Proof.
  revert n. induction l as [|a l IH]; intros [|n]; simpl.
  - constructor.
  - constructor.
  - apply subseq_skip. apply (IH 0%nat).
  - apply subseq_take, IH.
Qed.

Lemma subseq_Forall {A} (P : A -> Prop) (sub l : list A) :
  subseq sub l -> Forall P l -> Forall P sub.
Proof.
  intros Hs Hf. apply Forall_forall. intros x Hx.
  rewrite Forall_forall in Hf. apply Hf. eapply subseq_In; eassumption.
Qed.

Lemma decreasing_subseq {A} (f : A -> Z) (sub l : list A) :
  subseq sub l -> decreasing f l -> decreasing f sub.
Proof.
  induction 1 as [|x sub l H IH|x sub l H IH]; simpl; [tauto | tauto |].
  intros [Hf Hd]. split; [eapply subseq_Forall; eassumption | apply IH, Hd].
Qed.

Lemma insert_by_count_decreasing (x : str * Z) (l : list (str * Z)) :
  decreasing snd l -> decreasing snd (insert_by_count x l).
Proof.
  induction l as [|y r IH]; simpl; [intros _; split; [constructor | exact I]|].
  intros [Hf Hd]. destruct (Z.leb_spec (snd y) (snd x)) as [Hle | Hlt]; simpl.
  - split; [|split; assumption]. constructor; [exact Hle|].
    eapply Forall_impl; [|exact Hf]. simpl. intros z Hz. lia.
  - split; [|apply IH, Hd].
    apply (Permutation_Forall (Permutation_sym (insert_by_count_perm x r))).
    constructor; [lia | exact Hf].
Qed.

Lemma sorted_by_count_decreasing (l : list (str * Z)) : decreasing snd (sorted_by_count l).
Proof.
  induction l as [|x l IH]; simpl; [exact I | apply insert_by_count_decreasing, IH].
Qed.

Lemma decreasing_map_fst (g : str -> Z) (l : list (str * Z)) :
  Forall (fun item => snd item = g (fst item)) l ->
  decreasing snd l -> decreasing g (map fst l).
Proof.
  induction 1 as [|x l Hx Hl IH]; simpl; [tauto|].
  intros [Hf Hd]. split; [|apply IH, Hd].
  apply Forall_map. rewrite Forall_forall in *. intros y Hy.
  rewrite <- Hx, <- (Hl y Hy). apply Hf, Hy.
Qed.

Section AnalyzeFacts.

Variable title : str -> str.
Variable lower : str -> str.
Variable is_word : char -> bool.

Local Abbreviation subject_words := (subject_words lower is_word).
Local Abbreviation _analyze_cluster := (_analyze_cluster title lower is_word).

(** [_analyze_cluster] keeps the emails and the id it is given.  Its keywords
    are at most five distinct words, each longer than two characters and
    occurring at least twice among the words of the subjects, listed with
    their number of occurrences not increasing. *)
Theorem analyze_cluster_keywords (cluster_emails0 : list EmailMessage) (cluster_id0 : Z) :
  let c := _analyze_cluster cluster_emails0 cluster_id0 in
  let words := subject_words cluster_emails0 in
  emails c = cluster_emails0
  /\ cluster_id c = cluster_id0
  /\ (length (keywords c) <= 5)%nat
  /\ NoDup (keywords c)
  /\ Forall (fun w => 2 < len w /\ 2 <= occurrences words w) (keywords c)
  /\ decreasing (occurrences words) (keywords c).
Proof.
  intros c words. subst c. unfold _analyze_cluster.
  fold words.
  set (items := filter is_keyword (most_common 5 (Counter words))).
  destruct (_generate_cluster_info _ _ _ _ _) as [name0 description0].
  cbn [emails cluster_id keywords].
  assert (subseq items (sorted_by_count (Counter words))) as Hsub.
  { unfold items, most_common, Dict.items.
    eapply subseq_trans; [apply subseq_filter | apply subseq_firstn]. }
  assert (Forall (fun item => snd item = occurrences words (fst item))
                 (sorted_by_count (Counter words))) as Hocc.
  { apply (Permutation_Forall (Permutation_sym (sorted_by_count_perm (Counter words)))).
    rewrite Counter_spec. apply Forall_forall. intros item Hi.
    apply in_map_iff in Hi. destruct Hi as [k [<- _]]. reflexivity. }
  split; [reflexivity|]. split; [reflexivity|]. split; [|split; [|split]].
  - rewrite length_map. unfold items, most_common.
    pose proof (filter_length_le is_keyword
                  (firstn 5 (sorted_by_count (Dict.items (Counter words))))) as H1.
    pose proof (firstn_le_length 5 (sorted_by_count (Dict.items (Counter words)))) as H2.
    rewrite length_firstn in H1. lia.
  - apply (subseq_NoDup (subseq_map fst Hsub)).
    apply (Permutation_NoDup
             (Permutation_map fst (Permutation_sym (sorted_by_count_perm (Counter words))))).
    rewrite Counter_spec, map_map. simpl. rewrite map_id. apply distinct_keys_NoDup.
  - apply Forall_map, Forall_forall. intros item Hi.
    assert (is_keyword item = true) as Hk by (apply (proj1 (filter_In _ _ _) Hi)).
    assert (snd item = occurrences words (fst item)) as Ho.
    { rewrite Forall_forall in Hocc. apply Hocc. eapply subseq_In; eassumption. }
    unfold is_keyword in Hk. apply andb_true_iff in Hk. destruct Hk as [H1 H2].
    apply Z.ltb_lt in H1, H2. rewrite <- Ho. split; [exact H2 | lia].
  - apply decreasing_map_fst; [eapply subseq_Forall; eassumption|].
    eapply decreasing_subseq; [exact Hsub | apply sorted_by_count_decreasing].
Qed.

End AnalyzeFacts.
